(** * AlgorithmicTrading: Black-Scholes pricing and Engle-Granger cointegration

    A shallow embedding of [Options Arbitrage/black_scholes.py] and
    [Statistical Arbitrage/cointegration_analysis.py], and the properties the
    specification states about them. *)

From Stdlib Require Import Floats.PrimFloat.
From Stdlib Require Floats.SpecFloat Floats.FloatOps Floats.FloatAxioms.
From Stdlib Require Import Reals Lra Lia Bool ZArith String List.
Import ListNotations.

(** ** Python exceptions and results *)

(** The exceptions the two modules can raise themselves, or receive from the
    libraries they call. *)
Inductive PyExc : Type :=
| ZeroDivisionError
| OverflowError
| ValueError
| IndexError
| AssertionError (msg : string).

Inductive result (A : Type) : Type :=
| Ok (a : A)
| Raise (e : PyExc).
Arguments Ok {A} a.
Arguments Raise {A} e.

Definition bind {A B : Type} (m : result A) (k : A -> result B) : result B :=
  match m with
  | Ok a => k a
  | Raise e => Raise e
  end.

Declare Scope result_scope.
Delimit Scope result_scope with result.
Notation "x <- m ;; k" := (bind m (fun x => k))
  (at level 61, m at next level, right associativity) : result_scope.
Local Open Scope result_scope.

Definition returns {A : Type} (m : result A) : Prop := exists a, m = Ok a.

(** ** The arithmetic the option pricer runs on

    [black_scholes.py] is written against whatever numbers it is called with.
    Its docstrings give every argument the type [float], so the operators
    between arguments are those of Python's [float], and everything that has
    passed through a [np.*] function is a [numpy.float64].  Both are IEEE
    binary64 numbers; they differ in what happens on a zero divisor and on
    overflow of [**]: Python raises, NumPy returns an infinity or a NaN (and
    warns, which with NumPy's default error state is no exception). *)
Class Float64 (F : Type) : Type := {
  f_add : F -> F -> F;
  f_sub : F -> F -> F;
  f_mul : F -> F -> F;
  f_neg : F -> F;
  (** the literals [0.5] and [1] *)
  f_half : F;
  f_one : F;
  (** [a / b] between two Python floats *)
  py_truediv : F -> F -> result F;
  (** [a ** 2] on a Python float *)
  py_pow_2 : F -> result F;
  (** [a / b] when an operand is a [numpy.float64] *)
  np_truediv : F -> F -> F;
  np_log : F -> F;
  np_sqrt : F -> F;
  np_exp : F -> F;
  (** [stats.norm(0, 1).cdf] and [stats.norm(0, 1).pdf] *)
  _norm_cdf : F -> F;
  _norm_pdf : F -> F
}.

(** ** black_scholes.py *)

Section BlackScholes.
Context {F : Type} {num : Float64 F}.

(** Python evaluates operands left to right: [S / K] first, then
    [sigma ** 2]. *)
Definition _d1 (S K T r sigma : F) : result F :=
  q <- py_truediv S K ;;
  s2 <- py_pow_2 sigma ;;
  Ok (np_truediv
        (f_add (np_log q) (f_mul (f_add r (f_mul f_half s2)) T))
        (f_mul sigma (np_sqrt T))).

Definition _d2 (S K T r sigma : F) : result F :=
  d1 <- _d1 S K T r sigma ;;
  Ok (f_sub d1 (f_mul sigma (np_sqrt T))).

Definition call_value (S K T r sigma : F) : result F :=
  d1 <- _d1 S K T r sigma ;;
  d2 <- _d2 S K T r sigma ;;
  Ok (f_sub (f_mul S (_norm_cdf d1))
            (f_mul (f_mul K (np_exp (f_mul (f_neg r) T))) (_norm_cdf d2))).

Definition put_value (S K T r sigma : F) : result F :=
  d2 <- _d2 S K T r sigma ;;
  d1 <- _d1 S K T r sigma ;;
  Ok (f_sub (f_mul (f_mul (np_exp (f_mul (f_neg r) T)) K) (_norm_cdf (f_neg d2)))
            (f_mul S (_norm_cdf (f_neg d1)))).

Definition call_delta (S K T r sigma : F) : result F :=
  d1 <- _d1 S K T r sigma ;;
  Ok (_norm_cdf d1).

Definition put_delta (S K T r sigma : F) : result F :=
  d <- call_delta S K T r sigma ;;
  Ok (f_sub d f_one).

Definition call_vega (S K T r sigma : F) : result F :=
  d1 <- _d1 S K T r sigma ;;
  Ok (f_mul (f_mul S (_norm_pdf d1)) (np_sqrt T)).

Definition put_vega (S K T r sigma : F) : result F :=
  call_vega S K T r sigma.

End BlackScholes.

(** ** Binary64 floats

    The numbers the code runs on: Rocq's primitive floats are IEEE binary64,
    as Python's [float] and [numpy.float64] are.  C's [pow], the logarithm, the
    exponential and SciPy's normal distribution are not operations of IEEE 754;
    they are taken as given, as total functions (each returns a NaN or an
    infinity where the mathematical function has no value). *)
Record NumLib : Type := {
  (** [pow] of the C library, which CPython's [float_pow] calls *)
  lib_pow : float -> float -> float;
  lib_log : float -> float;
  lib_exp : float -> float;
  lib_norm_cdf : float -> float;
  lib_norm_pdf : float -> float
}.

(** [float_div] of CPython: a zero divisor (of either sign) raises. *)
Definition float_truediv (a b : float) : result float :=
  if PrimFloat.eqb b 0%float then Raise ZeroDivisionError else Ok (a / b)%float.

(** [float_pow] of CPython at exponent 2, case by case as it is written: a NaN
    passes through, an infinity gives [inf], a zero gives [0.0], a base of
    magnitude one gives [1.0]; any other base goes, as its absolute value, to
    C's [pow], and a result out of range raises.  [pow (abs a) 2] may differ
    from the rounded product [a * a] in the last bit; it is out of range
    exactly when the product is, which is how the test is written here. *)
Definition float_pow_2 (L : NumLib) (a : float) : result float :=
  if PrimFloat.is_nan a then Ok a
  else if PrimFloat.is_infinity a then Ok PrimFloat.infinity
  else if PrimFloat.eqb a 0%float then Ok 0%float
  else if PrimFloat.eqb (PrimFloat.abs a) 1%float then Ok 1%float
  else if PrimFloat.is_infinity (a * a)%float then Raise OverflowError
  else Ok (lib_pow L (PrimFloat.abs a) 2%float).

(** Whether [a ** 2] raises [OverflowError]. *)
Definition square_overflows (a : float) : bool :=
  negb (PrimFloat.is_nan a) && negb (PrimFloat.is_infinity a)
  && PrimFloat.is_infinity (a * a)%float.

#[export]
Instance Binary64 (L : NumLib) : Float64 float := {
  f_add := PrimFloat.add;
  f_sub := PrimFloat.sub;
  f_mul := PrimFloat.mul;
  f_neg := PrimFloat.opp;
  f_half := 0.5%float;
  f_one := 1%float;
  py_truediv := float_truediv;
  py_pow_2 := float_pow_2 L;
  np_truediv := PrimFloat.div;
  np_log := lib_log L;
  np_sqrt := PrimFloat.sqrt;
  np_exp := lib_exp L;
  _norm_cdf := lib_norm_cdf L;
  _norm_pdf := lib_norm_pdf L
}.

(** What SciPy documents of [stats.norm(0, 1).cdf]: a probability, at every
    argument that is a number. *)
Definition cdf_in_unit_interval (L : NumLib) : Prop :=
  forall x : float,
    PrimFloat.is_nan x = false ->
    PrimFloat.leb 0%float (lib_norm_cdf L x) = true /\
    PrimFloat.leb (lib_norm_cdf L x) 1%float = true.

(** ** The standard normal distribution over the reals

    [stats.norm(0, 1)] is SciPy's, not this repository's.  Over the reals its
    density is [exp (- t^2 / 2) / sqrt (2 PI)] and its distribution function
    is the integral of the density from minus infinity, which is one half plus
    the integral from [0] (see [NormalFacts.std_norm_cdf_limit_0]).  The
    Riemann integral is the Standard Library's. *)

Module Normal.
Local Open Scope R_scope.

(** Continuous functions and their integral on any interval. *)
Record CFun : Type := mkCFun { fn :> R -> R; fn_cont : continuity fn }.

Lemma cfun_integrable (f : CFun) (a b : R) : Riemann_integrable f a b.
Proof.
  destruct (Rle_dec a b) as [Hab | Hab].
  - apply continuity_implies_RiemannInt; [exact Hab | intros x _; apply fn_cont].
  - apply RiemannInt_P1, continuity_implies_RiemannInt;
      [lra | intros x _; apply fn_cont].
Qed.

Definition integral (f : CFun) (a b : R) : R := RiemannInt (cfun_integrable f a b).

(** The Gaussian [exp (- t^2 / 2)], its derivative and its primitive. *)
Definition gauss (t : R) : R := exp (- (t * t / 2)).

Lemma gauss_derivable_pt_lim (t : R) : derivable_pt_lim gauss t (- t * gauss t).
Proof.
  unfold gauss.
  replace (- t * exp (- (t * t / 2))) with (exp (- (t * t / 2)) * (- t)) by ring.
  apply (derivable_pt_lim_comp (fun t => - (t * t / 2)) exp).
  - replace (- t) with (- ((1 * t + t * 1) / 2)) by field.
    apply derivable_pt_lim_opp with (f := fun t => t * t / 2).
    apply derivable_pt_lim_div_scal with (f := fun t => t * t).
    apply (derivable_pt_lim_mult id id); apply derivable_pt_lim_id.
  - apply derivable_pt_lim_exp.
Qed.

Lemma gauss_continuity : continuity gauss.
Proof.
  intro t. apply derivable_continuous_pt.
  exists (- t * gauss t). apply gauss_derivable_pt_lim.
Qed.

Definition gauss_c : CFun := mkCFun gauss gauss_continuity.

(** The density and the distribution function of [stats.norm(0, 1)]. *)
Definition std_norm_pdf (x : R) : R := gauss x / sqrt (2 * PI).
Definition std_norm_cdf (x : R) : R := 1 / 2 + integral gauss_c 0 x / sqrt (2 * PI).

End Normal.

(** ** The formulas of the specification

    Section 4.1 of the specification gives each function as a formula.  The
    formulas are written here once, in the specification's words, over an
    arithmetic that is left open.  They are read in two arithmetics: that of
    binary64, every operation rounded, in which the code evaluates them; and
    that of the real numbers, every operation exact, in which the
    specification states put-call parity.  The second is no model of the
    code: it is the mathematics the formulas come from. *)
Class Arithmetic (F : Type) : Type := {
  a_add : F -> F -> F;
  a_sub : F -> F -> F;
  a_mul : F -> F -> F;
  a_div : F -> F -> F;
  a_neg : F -> F;
  a_half : F;
  a_one : F;
  a_sq : F -> F;
  a_ln : F -> F;
  a_sqrt : F -> F;
  a_exp : F -> F;
  (** the standard normal distribution function and density *)
  a_Phi : F -> F;
  a_phi : F -> F
}.

Section Formulas.
Context {F : Type} {A : Arithmetic F}.

(** [d1 = [ln(S/K) + (r + sigma^2/2) T] / (sigma sqrt(T))], the half of
    [sigma^2] taken as one half times it. *)
Definition spec_d1 (S K T r sigma : F) : F :=
  a_div (a_add (a_ln (a_div S K)) (a_mul (a_add r (a_mul a_half (a_sq sigma))) T))
        (a_mul sigma (a_sqrt T)).

(** [d2 = d1 - sigma sqrt(T)] *)
Definition spec_d2 (S K T r sigma : F) : F :=
  a_sub (spec_d1 S K T r sigma) (a_mul sigma (a_sqrt T)).

(** [K e^(-rT)] *)
Definition spec_discounted_strike (K T r : F) : F :=
  a_mul K (a_exp (a_neg (a_mul r T))).

(** [call_value = S Phi(d1) - K e^(-rT) Phi(d2)] *)
Definition spec_call_value (S K T r sigma : F) : F :=
  a_sub (a_mul S (a_Phi (spec_d1 S K T r sigma)))
        (a_mul (spec_discounted_strike K T r) (a_Phi (spec_d2 S K T r sigma))).

(** [put_value = K e^(-rT) Phi(-d2) - S Phi(-d1)] *)
Definition spec_put_value (S K T r sigma : F) : F :=
  a_sub (a_mul (spec_discounted_strike K T r) (a_Phi (a_neg (spec_d2 S K T r sigma))))
        (a_mul S (a_Phi (a_neg (spec_d1 S K T r sigma)))).

(** [call_delta = Phi(d1)] and [put_delta = call_delta - 1] *)
Definition spec_call_delta (S K T r sigma : F) : F :=
  a_Phi (spec_d1 S K T r sigma).

Definition spec_put_delta (S K T r sigma : F) : F :=
  a_sub (spec_call_delta S K T r sigma) a_one.

(** [call_vega = S phi(d1) sqrt(T)], and [put_vega] equal to it *)
Definition spec_call_vega (S K T r sigma : F) : F :=
  a_mul (a_mul S (a_phi (spec_d1 S K T r sigma))) (a_sqrt T).

Definition spec_put_vega (S K T r sigma : F) : F :=
  spec_call_vega S K T r sigma.

End Formulas.

(** [a^2] in binary64: what C's [pow] gives for it, and the exact square
    where there is one whatever the library: a NaN at a NaN, infinity at an
    infinity, [0] at a zero and [1] at one and minus one. *)
Definition float_square (L : NumLib) (a : float) : float :=
  if PrimFloat.is_nan a then a
  else if PrimFloat.is_infinity a then PrimFloat.infinity
  else if PrimFloat.eqb a 0%float then 0%float
  else if PrimFloat.eqb (PrimFloat.abs a) 1%float then 1%float
  else lib_pow L (PrimFloat.abs a) 2%float.

(** The arithmetic of binary64, with the library [L]. *)
#[export]
Instance Rounded (L : NumLib) : Arithmetic float := {
  a_add := PrimFloat.add;
  a_sub := PrimFloat.sub;
  a_mul := PrimFloat.mul;
  a_div := PrimFloat.div;
  a_neg := PrimFloat.opp;
  a_half := 0.5%float;
  a_one := 1%float;
  a_sq := float_square L;
  a_ln := lib_log L;
  a_sqrt := PrimFloat.sqrt;
  a_exp := lib_exp L;
  a_Phi := lib_norm_cdf L;
  a_phi := lib_norm_pdf L
}.


(** ** cointegration_analysis.py *)

(** *** Data: pandas objects *)

(** A [pd.Series] of floats: rows of a label and a value, in order.  A
    missing value is a NaN.  Labels are integers (positions or timestamps). *)
Definition Series : Type := list (Z * float).

Definition index (s : Series) : list Z := map fst s.
Definition values (s : Series) : list float := map snd s.

(** A [pd.DataFrame]: an index and named columns. *)
Record DataFrame : Type := {
  df_index : list Z;
  df_columns : list (string * list float)
}.

(** What a caller can pass for [y] and [x]: Python is untyped, and the
    functions test the class of their arguments. *)
Inductive PyObj : Type :=
| PySeries (s : Series)
| PyDataFrame (d : DataFrame)
| PyNdarray (a : list float)
| PyList (l : list float)
| PyNone.

(** [isinstance(o, pd.Series)] *)
Definition isinstance_Series (o : PyObj) : bool :=
  match o with
  | PySeries _ => true
  | _ => false
  end.

(** [s.isnull()] and Python's [sum] of the booleans. *)
Definition isnull (s : Series) : list bool := map PrimFloat.is_nan (values s).

Fixpoint sum_bools (l : list bool) : Z :=
  match l with
  | [] => 0
  | b :: l' => (if b then 1 else 0) + sum_bools l'
  end.

(** [a.equals(b)] on two indexes: the same labels in the same order. *)
Fixpoint index_equals (a b : list Z) : bool :=
  match a, b with
  | [], [] => true
  | i :: a', j :: b' => Z.eqb i j && index_equals a' b'
  | _, _ => false
  end.

(** [s.shift()]: every value moves one row down, the first row gets a NaN,
    and the index stays. *)
Fixpoint shift_from (prev : float) (s : Series) : Series :=
  match s with
  | [] => []
  | (i, v) :: s' => (i, prev) :: shift_from v s'
  end.

Definition shift (s : Series) : Series := shift_from PrimFloat.nan s.

(** [s.diff()]: each value minus the one in the row before, a NaN in the
    first row, and the index stays. *)
Fixpoint diff_from (prev : float) (s : Series) : Series :=
  match s with
  | [] => []
  | (i, v) :: s' => (i, PrimFloat.sub v prev) :: diff_from v s'
  end.

Definition diff (s : Series) : Series :=
  match s with
  | [] => []
  | (i, v) :: s' => (i, PrimFloat.nan) :: diff_from v s'
  end.

(** [s.iloc[1:]] *)
Definition iloc_from_1 (s : Series) : Series := tl s.

(** *** statsmodels

    [add_constant], [OLS(...).fit()] and [adfuller] are statsmodels', taken
    as given; each call is recorded with its arguments, so that a property can
    say which calls were made and in which order. *)
Inductive Exog : Type :=
| ExogFrame (d : DataFrame)
| ExogSeries (s : Series).

Record OLSResults : Type := {
  params : list float;
  resid : Series
}.

(** The five values [adfuller] returns when [autolag] is [None]. *)
Record ADFResults : Type := {
  adf_adfstat : float;
  adf_pvalue : float;
  adf_usedlag : Z;
  adf_nobs : Z;
  adf_crit_values : list (string * float)
}.

Class StatsModels : Type := {
  add_constant : Series -> DataFrame;
  (** [OLS(endog, exog, has_const=...).fit()] *)
  OLS_fit : Series -> Exog -> option bool -> result OLSResults;
  (** [adfuller(z, maxlag=..., autolag=...)] *)
  adfuller : Series -> Z -> option string -> result ADFResults
}.

Inductive Event : Type :=
| CallAddConstant (x : Series)
| CallOLS (endog : Series) (exog : Exog) (has_const : option bool)
| CallAdfuller (z : Series) (maxlag : Z) (autolag : option string).

(** A computation that may raise and that records its library calls. *)
Definition Py (A : Type) : Type := list Event -> result A * list Event.

Definition ret {A : Type} (a : A) : Py A := fun tr => (Ok a, tr).

Definition raise {A : Type} (e : PyExc) : Py A := fun tr => (Raise e, tr).

Definition pbind {A B : Type} (m : Py A) (k : A -> Py B) : Py B :=
  fun tr =>
    match m tr with
    | (Ok a, tr') => k a tr'
    | (Raise e, tr') => (Raise e, tr')
    end.

Definition call {A : Type} (ev : Event) (r : result A) : Py A :=
  fun tr => (r, tr ++ [ev]).

Declare Scope py_scope.
Delimit Scope py_scope with py.
Notation "x <- m ;; k" := (pbind m (fun x => k))
  (at level 61, m at next level, right associativity) : py_scope.
Notation "' p <- m ;; k" := (pbind m (fun x => match x with p => k end))
  (at level 61, p pattern, m at next level, right associativity) : py_scope.
Notation "m ;;; k" := (pbind m (fun _ => k))
  (at level 61, right associativity) : py_scope.

(** [assert b, msg] *)
Definition py_assert (b : bool) (msg : string) : Py unit :=
  if b then ret tt else raise (AssertionError msg).

(** [a, b = l] *)
Definition unpack_2 (l : list float) : Py (float * float) :=
  match l with
  | [a; b] => ret (a, b)
  | _ => raise ValueError
  end.

(** [l[0]] *)
Definition getitem_0 (l : list float) : Py float :=
  match l with
  | a :: _ => ret a
  | [] => raise IndexError
  end.

Section Cointegration.
Context {sm : StatsModels}.
Local Open Scope py_scope.

(** The five assertions both functions start with (lines 45-49 and 97-101),
    with assertions enabled (no [-O]).  The two [isinstance] assertions are
    the two matches: past them [y] and [x] are series, whose [isnull] and
    [index] the other three read. *)
Definition input_assertions (y x : PyObj) : Py (Series * Series) :=
  match y with
  | PySeries ys =>
      match x with
      | PySeries xs =>
          py_assert (Z.eqb (sum_bools (isnull ys)) 0)
            "Input series y has nan-values. Unhandled case." ;;;
          py_assert (Z.eqb (sum_bools (isnull xs)) 0)
            "Input series x has nan-values. Unhandled case." ;;;
          py_assert (index_equals (index ys) (index xs))
            "The two input series y and x do not have the same index." ;;;
          ret (ys, xs)
      | _ => raise (AssertionError "Input series x should be of type pd.Series")
      end
  | _ => raise (AssertionError "Input series y should be of type pd.Series")
  end.

Definition estimate_long_run_short_run_relationships (y x : PyObj)
  : Py (float * float * float * Series) :=
  '(ys, xs) <- input_assertions y x ;;
  exog <- call (CallAddConstant xs) (Ok (add_constant xs)) ;;
  long_run_ols_fit <-
    call (CallOLS ys (ExogFrame exog) (Some true))
         (OLS_fit ys (ExogFrame exog) (Some true)) ;;
  '(c, gamma) <- unpack_2 (params long_run_ols_fit) ;;
  let z := resid long_run_ols_fit in
  let dy := iloc_from_1 (diff ys) in
  let lagged := iloc_from_1 (shift z) in
  short_run_ols_fit <-
    call (CallOLS dy (ExogSeries lagged) None)
         (OLS_fit dy (ExogSeries lagged) None) ;;
  alpha <- getitem_0 (params short_run_ols_fit) ;;
  ret (c, gamma, alpha, z).

Definition engle_granger_two_step_cointegration_test (y x : PyObj)
  : Py (float * float) :=
  input_assertions y x ;;;
  '(c, gamma, alpha, z) <- estimate_long_run_short_run_relationships y x ;;
  r <- call (CallAdfuller z 1 None) (adfuller z 1 None) ;;
  ret (adf_adfstat r, adf_pvalue r).

End Cointegration.

(** *** The procedure in the specification's words

    Time points are numbered from 1, as in the specification: [at_time s t]
    is the value of [s] at time [t] and [label_at s t] its label. *)
Definition at_time (s : Series) (t : nat) : float :=
  nth (t - 1) (values s) PrimFloat.nan.

Definition label_at (s : Series) (t : nat) : Z := nth (t - 1) (index s) 0%Z.

(** Step 3: the first differences [y_t - y_(t-1)] for [t >= 2]. *)
Definition first_differences (y : Series) : Series :=
  map (fun t => (label_at y t, PrimFloat.sub (at_time y t) (at_time y (t - 1))))
      (seq 2 (length y - 1)).

(** Step 3: the lagged residuals [z_(t-1)] for [t >= 2]. *)
Definition lagged_residuals (z : Series) : Series :=
  map (fun t => (label_at z t, at_time z (t - 1))) (seq 2 (length z - 1)).

Section CointegrationSpec.
Context {sm : StatsModels}.
Local Open Scope py_scope.

(** Steps 3 and 4 of [engle_granger_two_step_cointegration_test], on the
    outcome of the estimation: a unit-root test on [z] with lag order 1 and no
    automatic lag selection, and its statistic and p-value. *)
Definition spec_unit_root_test
    (est : result (float * float * float * Series) * list Event)
  : result (float * float) * list Event :=
  match est with
  | (Ok (_, _, _, z), tr) =>
      (match adfuller z 1 None with
       | Ok r => Ok (adf_adfstat r, adf_pvalue r)
       | Raise e => Raise e
       end,
       tr ++ [CallAdfuller z 1 None])
  | (Raise e, tr) => (Raise e, tr)
  end.

End CointegrationSpec.

(** The input the specification calls valid. *)
Definition no_missing (s : Series) : Prop :=
  Forall (fun v => PrimFloat.is_nan v = false) (values s).

Definition has_missing (s : Series) : Prop :=
  Exists (fun v => PrimFloat.is_nan v = true) (values s).

Definition valid_pair (y x : Series) : Prop :=
  index y = index x /\ no_missing y /\ no_missing x.

(** *** Sample data and a stand-in for statsmodels

    Three time points, as two aligned series, and as two that are not. *)
Definition sample_y : Series := [(0%Z, 1%float); (1%Z, 5%float); (2%Z, 3%float)].
Definition sample_x : Series := [(0%Z, 0%float); (1%Z, 2%float); (2%Z, 4%float)].
Definition sample_x_shifted : Series :=
  [(1%Z, 0%float); (2%Z, 2%float); (3%Z, 4%float)].
Definition sample_x_missing : Series :=
  [(0%Z, 0%float); (1%Z, PrimFloat.nan); (2%Z, 4%float)].

(** To run the two functions on the samples: least squares for one regressor
    by its closed form, with a constant or through the origin.  Like
    statsmodels by default, [add_constant] adds no column to a series that is
    already a non-zero constant, a fit of no observation raises [ValueError],
    and so does the unit-root test on a sample as short as these.  No property
    below depends on it. *)
Definition fsum (l : list float) : float := fold_left PrimFloat.add l 0%float.

Definition fcount (l : list float) : float :=
  fold_left (fun n _ => PrimFloat.add n 1%float) l 0%float.

Definition fmean (l : list float) : float := PrimFloat.div (fsum l) (fcount l).

Definition dot (a b : list float) : float :=
  fsum (map (fun p => PrimFloat.mul (fst p) (snd p)) (combine a b)).

Definition centred (l : list float) : list float :=
  map (fun v => PrimFloat.sub v (fmean l)) l.

Definition ols_through_origin (y x : list float) : float :=
  PrimFloat.div (dot x y) (dot x x).

Definition ols_with_constant (y x : list float) : float * float :=
  let gamma := PrimFloat.div (dot (centred x) (centred y)) (dot (centred x) (centred x)) in
  (PrimFloat.sub (fmean y) (PrimFloat.mul gamma (fmean x)), gamma).

Definition residuals (y : Series) (fitted : list float) : Series :=
  map (fun p => (fst (fst p), PrimFloat.sub (snd (fst p)) (snd p))) (combine y fitted).

(** [np.ptp(x) == 0 and np.all(x != 0)] *)
Definition is_nonzero_constant (l : list float) : bool :=
  match l with
  | [] => false
  | v :: _ =>
      forallb (fun w => PrimFloat.eqb w v) l && negb (PrimFloat.eqb v 0%float)
  end.

Definition textbook : StatsModels := {|
  add_constant x :=
    {| df_index := index x;
       df_columns :=
         if is_nonzero_constant (values x)
         then [("x"%string, values x)]
         else [("const"%string, map (fun _ => 1%float) x);
               ("x"%string, values x)] |};
  OLS_fit endog exog _ :=
    match endog, exog with
    | [], _ => Raise ValueError
    | _, ExogFrame d =>
        match df_columns d with
        | [(_, _); (_, xs)] =>
            let (c, gamma) := ols_with_constant (values endog) xs in
            Ok {| params := [c; gamma];
                  resid := residuals endog
                             (map (fun v => PrimFloat.add c (PrimFloat.mul gamma v)) xs) |}
        | [(_, xs)] =>
            let alpha := ols_through_origin (values endog) xs in
            Ok {| params := [alpha];
                  resid := residuals endog (map (PrimFloat.mul alpha) xs) |}
        | _ => Raise ValueError
        end
    | _, ExogSeries s =>
        let alpha := ols_through_origin (values endog) (values s) in
        Ok {| params := [alpha];
              resid := residuals endog (map (PrimFloat.mul alpha) (values s)) |}
    end;
  adfuller _ _ _ := Raise ValueError
|}.

(** More samples: no time point, one time point, and a constant [x]. *)
Definition sample_empty : Series := [].
Definition sample_y_single : Series := [(0%Z, 1%float)].
Definition sample_x_single : Series := [(0%Z, 0%float)].
Definition sample_x_constant : Series :=
  [(0%Z, 3%float); (1%Z, 3%float); (2%Z, 3%float)].
Definition sample_y_missing : Series :=
  [(0%Z, 1%float); (1%Z, PrimFloat.nan); (2%Z, 3%float)].

(** To run the pricer in the examples: a library that is crude but total.
    Its distribution function has two values, a quarter below zero and three
    quarters from zero on, and is a NaN at a NaN, as SciPy's is.  No property
    below depends on it. *)
Definition crude : NumLib := {|
  lib_pow := fun a _ => PrimFloat.mul a a;
  lib_log := fun x => PrimFloat.sub x 1%float;
  lib_exp := fun x => PrimFloat.add 1%float x;
  lib_norm_cdf := fun x =>
    if PrimFloat.is_nan x then PrimFloat.nan
    else if PrimFloat.ltb x 0%float then 0.25%float else 0.75%float;
  lib_norm_pdf := fun _ => 0%float
|}.

(** * Properties *)

(** ** Binary64 arithmetic

    What the properties of the pricer need of the IEEE operations, from their
    specification in the Standard Library: a product does not depend on the
    order of its factors, a sign moves out of a product, a float whose square
    is out of range is neither zero nor of magnitude one, and a float between
    zero and one, minus one, is a float between minus one and zero. *)

Module FloatFacts.
Import SpecFloat FloatOps FloatAxioms.
Local Open Scope Z_scope.

Lemma digits2_pos_upper (p : positive) : Zpos p < 2 ^ Zpos (digits2_pos p).
Proof.
  induction p as [p IH | p IH |]; cbn [digits2_pos];
    rewrite ?Pos2Z.inj_succ, ?Z.pow_succ_r by lia; lia.
Qed.

Lemma digits2_pos_lower (p : positive) : 2 ^ (Zpos (digits2_pos p) - 1) <= Zpos p.
Proof.
  induction p as [p IH | p IH |]; cbn [digits2_pos];
    rewrite ?Pos2Z.inj_succ;
    try (replace (Z.succ (Zpos (digits2_pos p)) - 1)
           with (Z.succ (Zpos (digits2_pos p) - 1)) by lia;
         rewrite Z.pow_succ_r by lia);
    try lia.
Qed.

(** A non-negative integer below [2 ^ k] has at most [k] digits. *)
Lemma Zdigits2_le (m k : Z) : 0 <= m -> 0 <= k -> m < 2 ^ k -> Zdigits2 m <= k.
Proof.
  intros Hm Hk Hlt. destruct m as [| p | p]; cbn [Zdigits2]; [lia | | lia].
  pose proof (digits2_pos_lower p) as Hl.
  destruct (Z_lt_le_dec k (Zpos (digits2_pos p))) as [Hgt | Hle]; [| exact Hle].
  exfalso.
  assert (2 ^ k <= 2 ^ (Zpos (digits2_pos p) - 1)) by (apply Z.pow_le_mono_r; lia).
  lia.
Qed.

Lemma shr_1_m (mrs : shr_record) :
  0 <= shr_m mrs -> shr_m (shr_1 mrs) = shr_m mrs / 2.
Proof.
  destruct mrs as [m r s]. cbn [shr_m]. intro Hm.
  destruct m as [| [p | p |] | p]; cbn [shr_1 shr_m]; try lia.
  - reflexivity.
  - apply Z.div_unique with (r := 1); lia.
  - apply Z.div_unique with (r := 0); lia.
  - reflexivity.
Qed.

Lemma iter_shr_1_m (n : positive) (mrs : shr_record) :
  0 <= shr_m mrs ->
  shr_m (iter_pos shr_1 n mrs) = shr_m mrs / 2 ^ Zpos n.
Proof.
  revert mrs. induction n as [n IH | n IH |]; intros mrs Hm; cbn [iter_pos].
  - assert (H1 : 0 <= shr_m (shr_1 mrs)).
    { rewrite shr_1_m by exact Hm. apply Z.div_pos; lia. }
    assert (H2 : 0 <= shr_m (iter_pos shr_1 n (shr_1 mrs))).
    { rewrite IH by exact H1. apply Z.div_pos; [exact H1 | apply Z.pow_pos_nonneg; lia]. }
    rewrite IH by exact H2. rewrite IH by exact H1. rewrite shr_1_m by exact Hm.
    rewrite !Z.div_div by (try apply Z.pow_pos_nonneg; lia).
    f_equal. rewrite <- Z.pow_add_r, <- Z.pow_succ_r by lia. f_equal. lia.
  - assert (H2 : 0 <= shr_m (iter_pos shr_1 n mrs)).
    { rewrite IH by exact Hm. apply Z.div_pos; [exact Hm | apply Z.pow_pos_nonneg; lia]. }
    rewrite IH by exact H2. rewrite IH by exact Hm.
    rewrite !Z.div_div by (try apply Z.pow_pos_nonneg; lia).
    f_equal. rewrite <- Z.pow_add_r by lia. f_equal. lia.
  - rewrite shr_1_m by exact Hm. reflexivity.
Qed.


Lemma fexp_binary64 (k : Z) : fexp prec emax k = Z.max (k - 53) (-1074).
Proof. reflexivity. Qed.

Lemma shr_m_of_loc (m : Z) (l : location) : shr_m (shr_record_of_loc m l) = m.
Proof. destruct l as [| []]; reflexivity. Qed.

Lemma loc_of_shr_record_of_loc (m : Z) (l : location) :
  loc_of_shr_record (shr_record_of_loc m l) = l.
Proof. destruct l as [| []]; reflexivity. Qed.

(** What [shr_fexp] does to a non-negative mantissa: the exponent is raised
    to the one the format asks for, and the mantissa divided accordingly. *)
Lemma shr_fexp_m (m e : Z) (l : location) :
  0 <= m ->
  let e' := Z.max e (fexp prec emax (Zdigits2 m + e)) in
  snd (shr_fexp prec emax m e l) = e' /\
  shr_m (fst (shr_fexp prec emax m e l)) = m / 2 ^ (e' - e) /\
  (e' = e -> loc_of_shr_record (fst (shr_fexp prec emax m e l)) = l).
Proof.
  intros Hm e'. unfold shr_fexp, shr.
  destruct (fexp prec emax (Zdigits2 m + e) - e) as [| n | n] eqn:En;
    cbn [fst snd].
  - assert (e' = e) as -> by (unfold e'; lia).
    rewrite Z.sub_diag, Z.div_1_r, shr_m_of_loc, loc_of_shr_record_of_loc.
    split; [reflexivity | split; [reflexivity | reflexivity]].
  - assert (e' = e + Zpos n) as -> by (unfold e'; lia).
    rewrite iter_shr_1_m by (rewrite shr_m_of_loc; exact Hm).
    rewrite shr_m_of_loc.
    replace (e + Zpos n - e) with (Zpos n) by lia.
    split; [reflexivity | split; [reflexivity | lia]].
  - assert (e' = e) as -> by (unfold e'; lia).
    rewrite Z.sub_diag, Z.div_1_r, shr_m_of_loc, loc_of_shr_record_of_loc.
    split; [reflexivity | split; [reflexivity | reflexivity]].
Qed.

Lemma round_nearest_even_bounds (m : Z) (l : location) :
  m <= round_nearest_even m l <= m + 1.
Proof.
  destruct l as [| []]; cbn [round_nearest_even];
    try destruct (Z.even m); lia.
Qed.

(** A float of the given sign whose magnitude is at most one. *)
Definition within_unit (s : bool) (x : spec_float) : Prop :=
  match x with
  | S754_zero _ => True
  | S754_finite s' m e => s' = s /\ e <= -52 /\ Zpos m <= 2 ^ (- e)
  | _ => False
  end.

Lemma pow2_split (a b : Z) : 0 <= b -> b <= a -> 2 ^ a = 2 ^ (a - b) * 2 ^ b.
Proof.
  intros Hb Hab. rewrite <- Z.pow_add_r by lia. f_equal. lia.
Qed.

(** Rounding an exact magnitude below one gives a magnitude of at most one. *)
Lemma binary_round_aux_unit (s : bool) (m e : Z) :
  e <= -52 -> 0 <= m < 2 ^ (- e) ->
  within_unit s (binary_round_aux prec emax s m e loc_Exact).
Proof.
  intros He [Hm0 Hm]. unfold binary_round_aux.
  destruct (shr_fexp_m m e loc_Exact Hm0) as (E1 & M1 & L1).
  destruct (shr_fexp prec emax m e loc_Exact) as [mrs1 e1]. cbn [fst snd] in *.
  assert (Hd : Zdigits2 m <= - e) by (apply Zdigits2_le; lia).
  pose proof (fexp_binary64 (Zdigits2 m + e)) as F1.
  assert (He1 : e1 <= -52) by lia.
  assert (He1' : e <= e1) by lia.
  set (m2 := round_nearest_even (shr_m mrs1) (loc_of_shr_record mrs1)).
  assert (Hm2 : 0 <= m2 <= 2 ^ (- e1)).
  { pose proof (round_nearest_even_bounds (shr_m mrs1) (loc_of_shr_record mrs1)) as B.
    fold m2 in B.
    assert (H0 : 0 <= shr_m mrs1).
    { rewrite M1. apply Z.div_pos; [exact Hm0 | apply Z.pow_pos_nonneg; lia]. }
    split; [lia |].
    destruct (Z.eq_dec e1 e) as [Heq | Hne].
    - unfold m2. rewrite L1 by (rewrite <- E1; exact Heq). cbn [round_nearest_even].
      rewrite M1, <- E1, Heq, Z.sub_diag, Z.div_1_r. lia.
    - assert (shr_m mrs1 < 2 ^ (- e1)); [| lia].
      rewrite M1, <- E1. apply Z.div_lt_upper_bound.
      + apply Z.pow_pos_nonneg; lia.
      + rewrite <- Z.pow_add_r by lia.
        replace (e1 - e + - e1) with (- e) by lia. exact Hm. }
  destruct (shr_fexp_m m2 e1 loc_Exact (proj1 Hm2)) as (E2 & M2 & _).
  destruct (shr_fexp prec emax m2 e1 loc_Exact) as [mrs2 e2]. cbn [fst snd] in *.
  assert (Hd2 : Zdigits2 m2 <= - e1 + 1).
  { apply Zdigits2_le; [lia | lia |].
    rewrite Z.pow_add_r, Z.pow_1_r by lia.
    assert (0 < 2 ^ (- e1)) by (apply Z.pow_pos_nonneg; lia). lia. }
  pose proof (fexp_binary64 (Zdigits2 m2 + e1)) as F2.
  assert (He2 : e2 <= -52) by lia.
  assert (He2' : e1 <= e2) by lia.
  assert (Hm3 : 0 <= shr_m mrs2 <= 2 ^ (- e2)).
  { rewrite M2, <- E2. split.
    - apply Z.div_pos; [lia | apply Z.pow_pos_nonneg; lia].
    - apply Z.div_le_upper_bound; [apply Z.pow_pos_nonneg; lia |].
      rewrite <- Z.pow_add_r by lia.
      replace (e2 - e1 + - e2) with (- e1) by lia. lia. }
  destruct (shr_m mrs2) as [| p | p]; cbn [within_unit].
  - exact I.
  - replace (e2 <=? emax - prec) with true
      by (symmetry; apply Z.leb_le; unfold emax, prec; lia).
    cbn [within_unit]. split; [reflexivity | lia].
  - lia.
Qed.

Lemma pos_iter_xO (m d : positive) :
  Zpos (Pos.iter xO m d) = Zpos m * 2 ^ Zpos d.
Proof.
  induction d as [| d IH] using Pos.peano_ind.
  - cbn. lia.
  - rewrite Pos.iter_succ, Pos2Z.inj_succ, Z.pow_succ_r by lia.
    rewrite Pos2Z.inj_xO, IH. lia.
Qed.

Lemma shl_align_spec (m : positive) (e e' : Z) :
  snd (shl_align m e e') = Z.min e e' /\
  Zpos (fst (shl_align m e e')) = Zpos m * 2 ^ (e - Z.min e e').
Proof.
  unfold shl_align. destruct (e' - e) as [| d | d] eqn:Ed; cbn [fst snd].
  - replace (Z.min e e') with e by lia. rewrite Z.sub_diag. split; lia.
  - replace (Z.min e e') with e by lia. rewrite Z.sub_diag. split; lia.
  - replace (Z.min e e') with e' by lia. split; [reflexivity |].
    rewrite pos_iter_xO. f_equal. f_equal. lia.
Qed.

Lemma binary_round_unit (s : bool) (p : positive) (e : Z) :
  e <= -52 -> Zpos p < 2 ^ (- e) ->
  within_unit s (binary_round prec emax s p e).
Proof.
  intros He Hp. unfold binary_round.
  destruct (shl_align_spec p e (fexp prec emax (Zpos (digits2_pos p) + e)))
    as [Ez Mz].
  destruct (shl_align p e (fexp prec emax (Zpos (digits2_pos p) + e)))
    as [mz ez]. cbn [fst snd] in *.
  apply binary_round_aux_unit; [lia |].
  split; [lia |]. rewrite Mz, <- Ez.
  assert (Hez : ez <= e) by lia.
  rewrite (pow2_split (- ez) (e - ez)) by lia.
  replace (- ez - (e - ez)) with (- e) by lia.
  apply Z.mul_lt_mono_pos_r; [apply Z.pow_pos_nonneg; lia | exact Hp].
Qed.


Definition SF_one : spec_float := S754_finite false 4503599627370496 (-52).

Lemma Prim2SF_0 : Prim2SF 0 = S754_zero false.
Proof. vm_compute. reflexivity. Qed.

Lemma Prim2SF_1 : Prim2SF 1 = SF_one.
Proof. vm_compute. reflexivity. Qed.

Lemma Prim2SF_minus_1 : Prim2SF (-1) = S754_finite true 4503599627370496 (-52).
Proof. vm_compute. reflexivity. Qed.

Lemma valid_mantissa_bound (s : bool) (m : positive) (e : Z) :
  valid_binary (S754_finite s m e) = true -> Zpos m < 2 ^ 53.
Proof.
  cbn [SpecFloat.valid_binary]. unfold bounded, canonical_mantissa.
  intro H. apply andb_prop in H. destruct H as [H _].
  apply Z.eqb_eq in H. rewrite fexp_binary64 in H.
  pose proof (digits2_pos_upper m) as Hu.
  assert (2 ^ Zpos (digits2_pos m) <= 2 ^ 53) by (apply Z.pow_le_mono_r; lia).
  lia.
Qed.

Lemma compare_cont_not_Gt (a b : positive) :
  Pos.compare_cont Eq a b <> Gt -> Zpos a <= Zpos b.
Proof. intro H. apply Pos2Z.pos_le_pos. exact H. Qed.

Lemma compare_cont_not_Lt (a b : positive) :
  Pos.compare_cont Eq a b <> Lt -> Zpos b <= Zpos a.
Proof. intro H. apply Pos2Z.pos_le_pos, Pos.ge_le. exact H. Qed.

(** Subtracting one from a float between zero and one. *)
Lemma SFsub_one_unit (x : spec_float) :
  valid_binary x = true ->
  SFleb (S754_zero false) x = true -> SFleb x SF_one = true ->
  within_unit true (SF64sub x SF_one).
Proof.
  intros Hv H0 H1. destruct x as [s | s | | s m e].
  - cbn. split; [reflexivity | split; [lia | reflexivity]].
  - destruct s; discriminate.
  - discriminate.
  - destruct s; [discriminate |].
    pose proof (valid_mantissa_bound _ _ _ Hv) as Hm.
    unfold SFleb, SFcompare, SF_one in H1.
    assert (He : e <= -52 /\ Zpos m <= 2 ^ (- e)).
    { destruct (Z.compare_spec e (-52)) as [-> | Hlt | Hgt].
      - split; [lia |]. change (2 ^ (- -52)) with 4503599627370496.
        apply compare_cont_not_Gt. intro C. rewrite C in H1. discriminate.
      - split; [lia |].
        assert (2 ^ 53 <= 2 ^ (- e)) by (apply Z.pow_le_mono_r; lia). lia.
      - discriminate. }
    destruct He as [He Hle].
    unfold SF64sub, SF_one, SFsub. cbn [cond_Zopp].
    replace (Z.min e (-52)) with e by lia.
    destruct (shl_align_spec m e e) as [_ M1].
    destruct (shl_align_spec 4503599627370496 (-52) e) as [_ M2].
    replace (Z.min e e) with e in M1 by lia.
    replace (Z.min (-52) e) with e in M2 by lia.
    rewrite Z.sub_diag, Z.mul_1_r in M1. rewrite M1, M2.
    change (Zpos 4503599627370496) with (2 ^ 52).
    rewrite <- Z.pow_add_r by lia. replace (52 + (-52 - e)) with (- e) by lia.
    destruct (Zpos m - 2 ^ (- e)) as [| p | p] eqn:Ep; cbn [binary_normalize].
    + exact I.
    + lia.
    + apply binary_round_unit; lia.
Qed.

Lemma within_unit_leb (y : spec_float) :
  within_unit true y ->
  SFleb (S754_finite true 4503599627370496 (-52)) y = true /\
  SFleb y (S754_zero false) = true.
Proof.
  destruct y as [s | s | | s m e]; cbn [within_unit]; try contradiction.
  - intros _. split; reflexivity.
  - intros (-> & He & Hm). split; [| reflexivity].
    unfold SFleb, SFcompare.
    destruct (Z.compare_spec (-52) e) as [<- | Hlt | Hgt].
    + change (2 ^ (- -52)) with 4503599627370496 in Hm.
      destruct (Pos.compare_cont Eq 4503599627370496 m) eqn:C; try reflexivity.
      exfalso. apply Z.le_ngt in Hm. apply Hm, Pos2Z.pos_lt_pos. exact C.
    + lia.
    + reflexivity.
Qed.

Local Open Scope float_scope.

(** A float in [[0, 1]] minus one is a float in [[-1, 0]]: the subtraction is
    rounded, and the rounding cannot leave the interval. *)
Lemma sub_one_range (d : float) :
  (0 <=? d) = true -> (d <=? 1) = true ->
  (-1 <=? d - 1) = true /\ (d - 1 <=? 0) = true.
Proof.
  rewrite !leb_spec, sub_spec, Prim2SF_0, Prim2SF_1, Prim2SF_minus_1.
  intros H0 H1. apply within_unit_leb.
  apply SFsub_one_unit; [apply Prim2SF_valid | exact H0 | exact H1].
Qed.

Lemma mul_comm (a b : float) : a * b = b * a.
Proof.
  apply Prim2SF_inj. rewrite !mul_spec. unfold SF64mul.
  destruct (Prim2SF a) as [sa | sa | | sa ma ea], (Prim2SF b) as [sb | sb | | sb mb eb];
    cbn [SFmul]; try reflexivity; rewrite (xorb_comm sa sb); try reflexivity.
  rewrite (Pos.mul_comm ma mb), (Z.add_comm ea eb). reflexivity.
Qed.

Lemma binary_round_aux_opp (s : bool) (m e : Z) (l : location) :
  binary_round_aux prec emax (negb s) m e l
  = SFopp (binary_round_aux prec emax s m e l).
Proof.
  unfold binary_round_aux.
  destruct (shr_fexp prec emax m e l) as [mrs1 e1].
  destruct (shr_fexp prec emax _ e1 loc_Exact) as [mrs2 e2].
  destruct (shr_m mrs2); [reflexivity | | reflexivity].
  destruct (Z.leb e2 (emax - prec)); reflexivity.
Qed.

Lemma mul_opp_l (a b : float) : (- a) * b = - (a * b).
Proof.
  apply Prim2SF_inj. rewrite opp_spec, !mul_spec, opp_spec. unfold SF64mul.
  destruct (Prim2SF a) as [sa | sa | | sa ma ea], (Prim2SF b) as [sb | sb | | sb mb eb];
    cbn [SFmul SFopp]; try reflexivity;
    try (destruct sa, sb; reflexivity).
  rewrite <- binary_round_aux_opp. destruct sa, sb; reflexivity.
Qed.

(** A float whose square is out of range is neither zero nor of magnitude one. *)
Lemma infinite_square (a : float) :
  is_infinity (a * a) = true -> (a =? 0) = false /\ (PrimFloat.abs a =? 1) = false.
Proof.
  unfold is_infinity. rewrite !eqb_spec, !abs_spec, mul_spec, Prim2SF_0, Prim2SF_1.
  replace (Prim2SF infinity) with (S754_infinity false) by (vm_compute; reflexivity).
  unfold SF64mul, SF_one.
  destruct (Prim2SF a) as [[] | [] | | s m e]; cbn [SFmul SFabs];
    try (intro H; discriminate H); try (intros _; split; reflexivity).
  intro H. split; [destruct s; reflexivity |].
  unfold SFeqb, SFcompare.
  destruct (Z.compare_spec e (-52)) as [-> | _ | _]; try reflexivity.
  destruct (Pos.compare_cont Eq m 4503599627370496) eqn:C; try reflexivity.
  exfalso. apply Pos.compare_eq in C. subst m. revert H.
  vm_compute. discriminate.
Qed.

End FloatFacts.

(** ** The standard normal distribution function

    The complement identity, which put-call parity rests on, and what makes
    [Normal.std_norm_cdf] the distribution function: its range, which is the
    Gaussian integral, its derivative, and its limits. *)

Module NormalFacts.
Import Normal.
Local Open Scope R_scope.

Lemma integral_chasles (f : CFun) (a b c : R) :
  integral f a b + integral f b c = integral f a c.
Proof. apply RiemannInt_P26. Qed.

Lemma integral_refl (f : CFun) (a : R) : integral f a a = 0.
Proof. apply RiemannInt_P9. Qed.

Lemma integral_swap (f : CFun) (a b : R) : integral f a b = - integral f b a.
Proof. apply RiemannInt_P8. Qed.

Lemma integral_derivable (f : CFun) (a x : R) :
  derivable_pt_lim (fun y => integral f a y) x (f x).
Proof.
  set (lo := Rmin a x - 1). set (hi := Rmax a x + 1).
  assert (Hlo : lo < a /\ lo < x).
  { unfold lo. pose proof (Rmin_l a x). pose proof (Rmin_r a x). lra. }
  assert (Hhi : a < hi /\ x < hi).
  { unfold hi. pose proof (Rmax_l a x). pose proof (Rmax_r a x). lra. }
  assert (h : lo <= hi) by lra.
  assert (C0 : forall y, lo <= y <= hi -> continuity_pt f y)
    by (intros y _; apply fn_cont).
  apply derivable_pt_lim_locally_ext
    with (f := fun y => primitive h (FTC_P1 h C0) y - integral f lo a)
         (a := lo) (b := hi); [lra | |].
  - intros z Hz. unfold primitive.
    destruct (Rle_dec lo z) as [H1 | H1]; [| lra].
    destruct (Rle_dec z hi) as [H2 | H2]; [| lra].
    rewrite (RiemannInt_P5 (FTC_P1 h C0 H1 H2) (cfun_integrable f lo z)).
    fold (integral f lo z). rewrite <- (integral_chasles f lo a z). ring.
  - replace (f x) with (f x - 0) by ring.
    apply (derivable_pt_lim_minus (primitive h (FTC_P1 h C0)) (fct_cte (integral f lo a))).
    + apply RiemannInt_P28. lra.
    + apply derivable_pt_lim_const.
Qed.

Lemma gauss_even (t : R) : gauss (- t) = gauss t.
Proof. unfold gauss. replace (- t * - t) with (t * t) by ring. reflexivity. Qed.

Lemma gauss_integral_odd (x : R) : integral gauss_c 0 (- x) = - integral gauss_c 0 x.
Proof.
  set (G := fun y : R => integral gauss_c 0 y + integral gauss_c 0 (- y)).
  assert (HG : forall y, derivable_pt_lim G y 0).
  { intro y. unfold G.
    cut (derivable_pt_lim G y (gauss y + gauss (- y) * (-1))).
    { rewrite gauss_even. replace (gauss y + gauss y * -1) with 0 by ring. trivial. }
    apply (derivable_pt_lim_plus (fun y => integral gauss_c 0 y)
             (fun y => integral gauss_c 0 (- y))).
    - apply (integral_derivable gauss_c).
    - apply (derivable_pt_lim_comp Ropp (fun y => integral gauss_c 0 y)).
      + replace (-1) with (- (1)) by ring. apply (derivable_pt_lim_opp id), derivable_pt_lim_id.
      + apply (integral_derivable gauss_c). }
  assert (pr : derivable G) by (intro y; exists 0; apply HG).
  assert (Hc : constant G).
  { apply (null_derivative_1 G pr). intro y. apply derive_pt_eq_0, HG. }
  specialize (Hc x 0). unfold G in Hc.
  rewrite Ropp_0, integral_refl in Hc. lra.
Qed.



Lemma integral_ext (f g : CFun) (a b : R) :
  a <= b -> (forall x, a < x < b -> f x = g x) -> integral f a b = integral g a b.
Proof. apply RiemannInt_P18. Qed.

Lemma integral_le (f g : CFun) (a b : R) :
  a <= b -> (forall x, a < x < b -> f x <= g x) -> integral f a b <= integral g a b.
Proof. apply RiemannInt_P19. Qed.

Lemma integral_linear (f g k : CFun) (l a b : R) :
  a <= b -> (forall x, a < x < b -> k x = f x + l * g x) ->
  integral k a b = integral f a b + l * integral g a b.
Proof.
  intros Hab Hk. unfold integral.
  rewrite <- (RiemannInt_P13 (cfun_integrable f a b) (cfun_integrable g a b)
                (RiemannInt_P10 l (cfun_integrable f a b) (cfun_integrable g a b))).
  apply RiemannInt_P18; assumption.
Qed.

Lemma integral_const (k : CFun) (c a b : R) :
  a <= b -> (forall x, a < x < b -> k x = c) -> integral k a b = c * (b - a).
Proof.
  intros Hab Hk. rewrite <- (RiemannInt_P15 (RiemannInt_P14 a b c)).
  apply RiemannInt_P18; assumption.
Qed.

Lemma integral_FTC (g : CFun) (P : R -> R) (a b : R) :
  (forall u, derivable_pt_lim P u (g u)) -> integral g a b = P b - P a.
Proof.
  intros HP.
  set (D := fun y : R => integral g a y - P y).
  assert (HD : forall y, derivable_pt_lim D y 0).
  { intro y. cut (derivable_pt_lim D y (g y - g y)).
    { replace (g y - g y) with 0 by ring. trivial. }
    apply (derivable_pt_lim_minus (fun y => integral g a y) P);
      [apply integral_derivable | apply HP]. }
  assert (pr : derivable D) by (intro y; exists 0; apply HD).
  assert (Hc : constant D).
  { apply (null_derivative_1 D pr). intro y. apply derive_pt_eq_0, HD. }
  specialize (Hc b a). unfold D in Hc. rewrite integral_refl in Hc. lra.
Qed.

(** A function whose second derivative is bounded by [M] near [x0] is within
    [M d^2] of its tangent at [x0]. *)
Lemma Rabs_le_inv (a b : R) : Rabs a <= b -> - b <= a <= b.
Proof. unfold Rabs. destruct (Rcase_abs a); lra. Qed.

Lemma second_order_bound (k k1 k2 : R -> R) (x0 M d : R) :
  (forall x, derivable_pt_lim k x (k1 x)) ->
  (forall x, derivable_pt_lim k1 x (k2 x)) ->
  (forall x, Rabs (x - x0) <= 1 -> Rabs (k2 x) <= M) ->
  Rabs d <= 1 ->
  Rabs (k (x0 + d) - k x0 - d * k1 x0) <= M * (d * d).
Proof.
  intros Hk Hk1 HM Hd.
  assert (HM0 : 0 <= M).
  { apply Rle_trans with (Rabs (k2 x0)); [apply Rabs_pos |].
    apply HM. rewrite Rminus_diag, Rabs_R0. lra. }
  destruct (Rtotal_order d 0) as [Hneg | [Hz | Hpos]].
  - assert (Hd' := Hd).
    destruct (MVT_cor2 k k1 (x0 + d) x0) as [c [Hc1 Hc2]];
      [lra | intros; apply Hk |].
    destruct (MVT_cor2 k1 k2 c x0) as [e [He1 He2]];
      [lra | intros; apply Hk1 |].
    replace (k (x0 + d) - k x0 - d * k1 x0) with (k2 e * (c - x0) * d) by
      (replace (k (x0 + d) - k x0) with (- (k1 c * (x0 - (x0 + d)))) by lra;
       replace (k1 c) with (k1 x0 - k2 e * (x0 - c)) by lra; ring).
    rewrite !Rabs_mult.
    assert (H1 : Rabs (k2 e) <= M).
    { apply HM. apply Rabs_le. apply Rabs_le_inv in Hd'. lra. }
    assert (H2 : Rabs (c - x0) <= - d) by (apply Rabs_le; lra).
    assert (H3 : Rabs d = - d) by (apply Rabs_left; lra).
    rewrite H3. replace (M * (d * d)) with (M * (- d) * (- d)) by ring.
    apply Rmult_le_compat_r; [lra |].
    apply Rmult_le_compat; try apply Rabs_pos; assumption.
  - subst d. rewrite Rplus_0_r. replace (k x0 - k x0 - 0 * k1 x0) with 0 by ring.
    rewrite Rabs_R0. lra.
  - assert (Hd' := Hd).
    destruct (MVT_cor2 k k1 x0 (x0 + d)) as [c [Hc1 Hc2]];
      [lra | intros; apply Hk |].
    destruct (MVT_cor2 k1 k2 x0 c) as [e [He1 He2]];
      [lra | intros; apply Hk1 |].
    replace (k (x0 + d) - k x0 - d * k1 x0) with (k2 e * (c - x0) * d) by
      (replace (k (x0 + d) - k x0) with (k1 c * (x0 + d - x0)) by lra;
       replace (k1 c) with (k1 x0 + k2 e * (c - x0)) by lra; ring).
    rewrite !Rabs_mult.
    assert (H1 : Rabs (k2 e) <= M).
    { apply HM. apply Rabs_le. apply Rabs_le_inv in Hd'. lra. }
    assert (H2 : Rabs (c - x0) <= d) by (apply Rabs_le; lra).
    assert (H3 : Rabs d = d) by (apply Rabs_right; lra).
    rewrite H3. replace (M * (d * d)) with (M * d * d) by ring.
    apply Rmult_le_compat_r; [lra |].
    apply Rmult_le_compat; try apply Rabs_pos; assumption.
Qed.

Definition cf_lin (f g : CFun) (l : R) : CFun :=
  mkCFun (fun x => f x + l * g x)
    (continuity_plus f (mult_real_fct l g) (fn_cont f)
       (continuity_scal g l (fn_cont g))).

Definition cf_const (c : R) : CFun :=
  mkCFun (fct_cte c) (continuity_const (fct_cte c) (fun x y => eq_refl)).

Lemma integral_abs_le (f : CFun) (M : R) :
  (forall u, 0 < u < 1 -> Rabs (f u) <= M) -> Rabs (integral f 0 1) <= M.
Proof.
  intros HM.
  assert (Hc : forall c, integral (cf_const c) 0 1 = c).
  { intro c. rewrite (integral_const (cf_const c) c 0 1); [ring | lra | reflexivity]. }
  apply Rabs_le. split.
  - rewrite <- (Hc (- M)). apply integral_le; [lra |]. intros u Hu.
    apply HM, Rabs_le_inv in Hu. apply Hu.
  - rewrite <- (Hc M). apply integral_le; [lra |]. intros u Hu.
    apply HM, Rabs_le_inv in Hu. apply Hu.
Qed.

(** Differentiation under the integral sign on [[0, 1]], for an integrand
    twice differentiable in the parameter with a locally bounded second
    derivative. *)
Section DiffUnderIntegral.
Variables (h h1 : R -> CFun) (h2 : R -> R -> R).
Hypothesis Hh : forall u x, derivable_pt_lim (fun x => h x u) x (h1 x u).
Hypothesis Hh1 : forall u x, derivable_pt_lim (fun x => h1 x u) x (h2 x u).
Hypothesis Hh2 : forall x0, exists M,
  forall x u, Rabs (x - x0) <= 1 -> 0 < u < 1 -> Rabs (h2 x u) <= M.

Lemma diff_under_integral (x0 : R) :
  derivable_pt_lim (fun x => integral (h x) 0 1) x0 (integral (h1 x0) 0 1).
Proof.
  intros eps Heps. destruct (Hh2 x0) as [M HM].
  assert (HM0 : 0 <= M).
  { apply Rle_trans with (Rabs (h2 x0 (1 / 2))); [apply Rabs_pos |].
    apply HM; [rewrite Rminus_diag, Rabs_R0 |]; lra. }
  assert (Hdelta : 0 < Rmin 1 (eps / (M + 1))).
  { apply Rmin_glb_lt; [lra |]. apply Rdiv_lt_0_compat; lra. }
  exists (mkposreal _ Hdelta). simpl. intros d Hd0 Hd.
  assert (Hd1 : Rabs d <= 1).
  { apply Rle_trans with (Rmin 1 (eps / (M + 1))); [lra | apply Rmin_l]. }
  assert (Hd2 : Rabs d < eps / (M + 1)).
  { apply Rlt_le_trans with (Rmin 1 (eps / (M + 1))); [lra | apply Rmin_r]. }
  set (D1 := cf_lin (h (x0 + d)) (h x0) (- 1)).
  set (D := cf_lin D1 (h1 x0) (- d)).
  assert (HD : integral D 0 1 =
               integral (h (x0 + d)) 0 1 - integral (h x0) 0 1 - d * integral (h1 x0) 0 1).
  { rewrite (integral_linear D1 (h1 x0) D (- d)); [| lra | reflexivity].
    rewrite (integral_linear (h (x0 + d)) (h x0) D1 (- 1)); [| lra | reflexivity].
    ring. }
  assert (HB : Rabs (integral D 0 1) <= M * (d * d)).
  { apply integral_abs_le. intros u Hu. unfold D, D1. simpl.
    replace (h (x0 + d) u + -1 * h x0 u + - d * h1 x0 u)
      with (h (x0 + d) u - h x0 u - d * h1 x0 u) by ring.
    apply (second_order_bound (fun x => h x u) (fun x => h1 x u) (fun x => h2 x u)).
    - intro x. apply Hh.
    - intro x. apply Hh1.
    - intros x Hx. apply HM; assumption.
    - exact Hd1. }
  replace ((integral (h (x0 + d)) 0 1 - integral (h x0) 0 1) / d - integral (h1 x0) 0 1)
    with (integral D 0 1 / d) by (rewrite HD; field; exact Hd0).
  unfold Rdiv. rewrite Rabs_mult, Rabs_inv.
  assert (Hpos : 0 < Rabs d) by (apply Rabs_pos_lt; exact Hd0).
  apply Rle_lt_trans with (M * Rabs d).
  - apply Rmult_le_reg_r with (Rabs d); [exact Hpos |].
    rewrite Rmult_assoc, Rinv_l, Rmult_1_r by lra.
    replace (M * Rabs d * Rabs d) with (M * (Rabs d * Rabs d)) by ring.
    rewrite <- Rabs_mult. rewrite (Rabs_right (d * d)); [exact HB | nra].
  - apply Rle_lt_trans with ((M + 1) * Rabs d); [nra |].
    apply Rmult_lt_reg_r with (/ (M + 1)); [apply Rinv_0_lt_compat; lra |].
    replace ((M + 1) * Rabs d * / (M + 1)) with (Rabs d) by (field; lra).
    exact Hd2.
Qed.

End DiffUnderIntegral.

(** The Gaussian integral.  With [E x] the integral of [gauss] from [0] to
    [x], the function [E x * E x + integral (polar x) 0 1] has derivative
    zero, so it keeps the value it has at [0], which is [PI / 2]. *)
Lemma one_plus_sq_neq_0 (u : R) : 1 + u * u <> 0.
Proof. nra. Qed.

Lemma polar_cont (x : R) :
  continuity (fun u => 2 * exp (- (x * x * (1 + u * u)) / 2) / (1 + u * u)).
Proof. reg. apply one_plus_sq_neq_0. Qed.

Lemma polar1_cont (x : R) :
  continuity (fun u => -2 * x * exp (- (x * x * (1 + u * u)) / 2)).
Proof. reg. Qed.

Definition polar (x : R) : CFun := mkCFun _ (polar_cont x).
Definition polar1 (x : R) : CFun := mkCFun _ (polar1_cont x).
Definition polar2 (x u : R) : R :=
  (-2 + 2 * (x * x) * (1 + u * u)) * exp (- (x * x * (1 + u * u)) / 2).

Lemma polar_derivable (u x : R) :
  derivable_pt_lim (fun x => polar x u) x (polar1 x u).
Proof.
  simpl.
  assert (pr : derivable_pt
    (fun x => 2 * exp (- (x * x * (1 + u * u)) / 2) / (1 + u * u)) x) by reg.
  apply (derive_pt_eq_1 _ x _ pr). reg. unfold Rdiv. set (E := exp _). field.
  apply one_plus_sq_neq_0.
Qed.

Lemma polar1_derivable (u x : R) :
  derivable_pt_lim (fun x => polar1 x u) x (polar2 x u).
Proof.
  simpl. unfold polar2.
  assert (pr : derivable_pt
    (fun x => -2 * x * exp (- (x * x * (1 + u * u)) / 2)) x) by reg.
  apply (derive_pt_eq_1 _ x _ pr). reg. unfold comp, Rdiv. cbv beta. set (E := exp _). field.
Qed.

Lemma exp_neg_le_1 (a : R) : 0 <= a -> exp (- a) <= 1.
Proof.
  intro Ha. rewrite <- exp_0. destruct Ha as [Ha | <-].
  - left. apply exp_increasing. lra.
  - rewrite Ropp_0. lra.
Qed.

Lemma polar2_bounded (x0 : R) : exists M,
  forall x u, Rabs (x - x0) <= 1 -> 0 < u < 1 -> Rabs (polar2 x u) <= M.
Proof.
  exists (2 + 4 * ((Rabs x0 + 1) * (Rabs x0 + 1))). intros x u Hx Hu.
  unfold polar2. rewrite Rabs_mult.
  assert (Hxx : x * x <= (Rabs x0 + 1) * (Rabs x0 + 1)).
  { apply Rabs_le_inv in Hx. pose proof (Rabs_pos x0).
    pose proof (Rle_abs x0). pose proof (Rle_abs (- x0)) as H2.
    rewrite Rabs_Ropp in H2. nra. }
  assert (He : Rabs (exp (- (x * x * (1 + u * u)) / 2)) <= 1).
  { rewrite Rabs_right by (left; apply exp_pos).
    replace (- (x * x * (1 + u * u)) / 2) with (- (x * x * (1 + u * u) / 2)) by field.
    apply exp_neg_le_1. nra. }
  assert (Hp : Rabs (-2 + 2 * (x * x) * (1 + u * u))
               <= 2 + 4 * ((Rabs x0 + 1) * (Rabs x0 + 1))).
  { assert (H0 : 0 <= x * x) by nra.
    assert (H1 : 0 <= u * u <= 1) by nra.
    assert (H2 : 0 <= x * x * (u * u) <= x * x) by nra.
    apply Rabs_le. nra. }
  replace (2 + 4 * ((Rabs x0 + 1) * (Rabs x0 + 1)))
    with ((2 + 4 * ((Rabs x0 + 1) * (Rabs x0 + 1))) * 1) by ring.
  apply Rmult_le_compat; try apply Rabs_pos; assumption.
Qed.

Lemma polar_integral_derivable (x : R) :
  derivable_pt_lim (fun x => integral (polar x) 0 1) x (integral (polar1 x) 0 1).
Proof.
  apply (diff_under_integral polar polar1 polar2).
  - apply polar_derivable.
  - apply polar1_derivable.
  - apply polar2_bounded.
Qed.

Lemma scaled_gauss_cont (x : R) : continuity (fun u => x * gauss (x * u)).
Proof. unfold gauss. reg. Qed.

Definition scaled_gauss (x : R) : CFun := mkCFun _ (scaled_gauss_cont x).

Lemma scaled_gauss_integral (x : R) :
  integral (scaled_gauss x) 0 1 = integral gauss_c 0 x.
Proof.
  rewrite (integral_FTC (scaled_gauss x) (fun u => integral gauss_c 0 (x * u))).
  - rewrite Rmult_1_r, Rmult_0_r, integral_refl. ring.
  - intro u. simpl.
    cut (derivable_pt_lim (comp (fun y => integral gauss_c 0 y) (fun u => x * u)) u
           (gauss (x * u) * (x * 1))).
    { rewrite Rmult_1_r, (Rmult_comm (gauss _)). trivial. }
    apply derivable_pt_lim_comp.
    + apply (derivable_pt_lim_scal id x u 1), derivable_pt_lim_id.
    + apply (integral_derivable gauss_c).
Qed.

Lemma polar1_integral (x : R) :
  integral (polar1 x) 0 1 = - (2 * gauss x * integral gauss_c 0 x).
Proof.
  rewrite <- scaled_gauss_integral.
  rewrite (integral_linear (cf_const 0) (scaled_gauss x) (polar1 x) (- (2 * gauss x)));
    [| lra |].
  - rewrite (integral_const (cf_const 0) 0 0 1); [ring | lra | reflexivity].
  - intros u _. simpl. unfold fct_cte, gauss.
    replace (- (x * x * (1 + u * u)) / 2)
      with (- (x * x / 2) + - (x * u * (x * u) / 2)) by field.
    rewrite exp_plus. ring.
Qed.

Lemma polar_integral_0 : integral (polar 0) 0 1 = PI / 2.
Proof.
  rewrite (integral_FTC (polar 0) (fun u => 2 * atan u)).
  - rewrite atan_1, atan_0. field.
  - intro u. simpl.
    replace (2 * exp (- (0 * 0 * (1 + u * u)) / 2) / (1 + u * u))
      with (2 * / (1 + u ^ 2)).
    + apply (derivable_pt_lim_scal atan 2), derivable_pt_lim_atan.
    + replace (- (0 * 0 * (1 + u * u)) / 2) with 0 by field.
      rewrite exp_0. field. apply one_plus_sq_neq_0.
Qed.

Lemma polar_integral_nonneg (x : R) : 0 <= integral (polar x) 0 1.
Proof.
  assert (H0 : integral (cf_const 0) 0 1 = 0).
  { rewrite (integral_const (cf_const 0) 0 0 1); [ring | lra | reflexivity]. }
  apply Rle_trans with (integral (cf_const 0) 0 1); [rewrite H0; lra |].
  apply integral_le; [lra |]. intros u _. simpl. unfold fct_cte.
  apply Rmult_le_pos; [| left; apply Rinv_0_lt_compat; nra].
  apply Rmult_le_pos; [lra | left; apply exp_pos].
Qed.

Lemma gauss_integral_sq_eq (x : R) :
  integral gauss_c 0 x * integral gauss_c 0 x + integral (polar x) 0 1 = PI / 2.
Proof.
  set (G := fun y : R =>
    integral gauss_c 0 y * integral gauss_c 0 y + integral (polar y) 0 1).
  assert (HG : forall y, derivable_pt_lim G y 0).
  { intro y.
    cut (derivable_pt_lim G y
           (gauss y * integral gauss_c 0 y + integral gauss_c 0 y * gauss y
            + integral (polar1 y) 0 1)).
    { rewrite polar1_integral.
      replace (gauss y * integral gauss_c 0 y + integral gauss_c 0 y * gauss y +
               - (2 * gauss y * integral gauss_c 0 y)) with 0 by ring.
      trivial. }
    apply (derivable_pt_lim_plus
             (fun y => integral gauss_c 0 y * integral gauss_c 0 y)
             (fun y => integral (polar y) 0 1)).
    - apply (derivable_pt_lim_mult (fun y => integral gauss_c 0 y)
               (fun y => integral gauss_c 0 y));
        apply (integral_derivable gauss_c).
    - apply polar_integral_derivable. }
  assert (pr : derivable G) by (intro y; exists 0; apply HG).
  assert (Hc : constant G).
  { apply (null_derivative_1 G pr). intro y. apply derive_pt_eq_0, HG. }
  specialize (Hc x 0). unfold G in Hc.
  rewrite integral_refl, polar_integral_0 in Hc. lra.
Qed.

Lemma gauss_integral_sq_bound (x : R) :
  integral gauss_c 0 x * integral gauss_c 0 x <= PI / 2.
Proof.
  pose proof (gauss_integral_sq_eq x). pose proof (polar_integral_nonneg x). lra.
Qed.

Lemma sqrt_2PI_pos : 0 < sqrt (2 * PI).
Proof. apply sqrt_lt_R0. pose proof PI_RGT_0. lra. Qed.

Lemma gauss_integral_bound (x : R) :
  Rabs (integral gauss_c 0 x) <= sqrt (2 * PI) / 2.
Proof.
  pose proof sqrt_2PI_pos as Hs. pose proof PI_RGT_0 as Hpi.
  pose proof (gauss_integral_sq_bound x) as Hb.
  assert (Hsq : sqrt (2 * PI) * sqrt (2 * PI) = 2 * PI) by (apply sqrt_sqrt; lra).
  apply Rabs_le.
  split.
  - apply Rnot_lt_le. intro Hlt.
    assert (sqrt (2 * PI) / 2 < - integral gauss_c 0 x) by lra. nra.
  - apply Rnot_lt_le. intro Hlt. nra.
Qed.

Lemma std_norm_cdf_range (x : R) : 0 <= std_norm_cdf x <= 1.
Proof.
  unfold std_norm_cdf. pose proof sqrt_2PI_pos as Hs.
  pose proof (Rabs_le_inv _ _ (gauss_integral_bound x)) as [H1 H2].
  assert (H3 : - (1 / 2) <= integral gauss_c 0 x / sqrt (2 * PI) <= 1 / 2).
  { split.
    - apply Rmult_le_reg_r with (sqrt (2 * PI)); [exact Hs |].
      unfold Rdiv at 2. rewrite Rmult_assoc, Rinv_l by lra. lra.
    - apply Rmult_le_reg_r with (sqrt (2 * PI)); [exact Hs |].
      unfold Rdiv at 1. rewrite Rmult_assoc, Rinv_l by lra. lra. }
  lra.
Qed.

Lemma std_norm_cdf_opp (x : R) : std_norm_cdf (- x) = 1 - std_norm_cdf x.
Proof.
  unfold std_norm_cdf. rewrite gauss_integral_odd. field.
  apply Rgt_not_eq, sqrt_2PI_pos.
Qed.


(** The model is the distribution function: its derivative is the density,
    and it tends to [1] at plus infinity and to [0] at minus infinity. *)
Lemma std_norm_cdf_derivable (x : R) :
  derivable_pt_lim std_norm_cdf x (std_norm_pdf x).
Proof.
  unfold std_norm_cdf, std_norm_pdf.
  cut (derivable_pt_lim
         (fun x => 1 / 2 + integral gauss_c 0 x / sqrt (2 * PI)) x
         (0 + gauss x / sqrt (2 * PI))).
  { rewrite Rplus_0_l. trivial. }
  apply (derivable_pt_lim_plus (fct_cte (1 / 2))
           (fun x => integral gauss_c 0 x / sqrt (2 * PI))).
  - apply derivable_pt_lim_const.
  - apply (derivable_pt_lim_div_scal (fun x => integral gauss_c 0 x)).
    apply (integral_derivable gauss_c).
Qed.

Lemma polar_integral_le (x : R) : integral (polar x) 0 1 <= 2 * gauss x.
Proof.
  assert (Hc : integral (cf_const (2 * gauss x)) 0 1 = 2 * gauss x).
  { rewrite (integral_const (cf_const (2 * gauss x)) (2 * gauss x) 0 1);
      [ring | lra | reflexivity]. }
  rewrite <- Hc. apply integral_le; [lra |]. intros u Hu. simpl. unfold fct_cte, gauss.
  assert (Hu2 : 0 <= u * u) by nra.
  assert (He : exp (- (x * x * (1 + u * u)) / 2) <= exp (- (x * x / 2))).
  { destruct (Req_dec (x * x * (u * u)) 0) as [H0 | H0].
    - right. f_equal. lra.
    - left. apply exp_increasing. assert (0 <= x * x * (u * u)) by nra. lra. }
  pose proof (exp_pos (- (x * x * (1 + u * u)) / 2)) as Hp.
  apply Rle_trans with (2 * exp (- (x * x * (1 + u * u)) / 2)); [| lra].
  unfold Rdiv at 1. rewrite <- (Rmult_1_r (2 * exp _)) at 2.
  apply Rmult_le_compat_l; [lra |].
  rewrite <- Rinv_1. apply Rinv_le_contravar; lra.
Qed.

Lemma gauss_integral_nonneg (x : R) : 0 <= x -> 0 <= integral gauss_c 0 x.
Proof.
  intro Hx.
  assert (H0 : integral (cf_const 0) 0 x = 0).
  { rewrite (integral_const (cf_const 0) 0 0 x); [ring | lra | reflexivity]. }
  apply Rle_trans with (integral (cf_const 0) 0 x); [rewrite H0; lra |].
  apply integral_le; [lra |]. intros t _. simpl. unfold fct_cte, gauss.
  left. apply exp_pos.
Qed.


Lemma std_norm_cdf_tail (x : R) : 0 <= x -> 1 - gauss x <= std_norm_cdf x.
Proof.
  intro Hx. unfold std_norm_cdf.
  pose proof sqrt_2PI_pos as Hs. pose proof PI2_1 as Hpi.
  assert (Hsq : sqrt (2 * PI) * sqrt (2 * PI) = 2 * PI) by (apply sqrt_sqrt; lra).
  pose proof (gauss_integral_sq_eq x) as Heq.
  pose proof (polar_integral_le x) as Hle.
  pose proof (gauss_integral_nonneg x Hx) as H0.
  pose proof (Rabs_le_inv _ _ (gauss_integral_bound x)) as [_ Hub].
  assert (Hg : 0 < gauss x) by apply exp_pos.
  set (E := integral gauss_c 0 x) in *. set (s := sqrt (2 * PI)) in *.
  assert (H1 : (s / 2 - E) * (s / 2) <= 2 * gauss x) by nra.
  assert (H2 : s / 2 - E <= gauss x * s).
  { apply Rmult_le_reg_r with (s / 2); [lra |]. nra. }
  apply Rmult_le_reg_r with s; [exact Hs |].
  replace ((1 / 2 + E / s) * s) with (s / 2 + E) by (field; lra).
  lra.
Qed.

Lemma gauss_small (eps : R) :
  0 < eps -> exists X, forall x, X < x -> gauss x < eps.
Proof.
  intro Heps. exists (Rmax 1 (2 / eps)). intros x Hx.
  assert (H1 : 1 < x) by (apply Rle_lt_trans with (2 := Hx), Rmax_l).
  assert (H2 : 2 / eps < x) by (apply Rle_lt_trans with (2 := Hx), Rmax_r).
  unfold gauss. rewrite exp_Ropp.
  pose proof (exp_ineq1_le (x * x / 2)) as He.
  assert (Hx2 : x < 1 + x * x / 2) by nra.
  assert (H3 : 2 < eps * x).
  { apply Rmult_lt_reg_r with (/ eps); [apply Rinv_0_lt_compat; lra |].
    replace (eps * x * / eps) with x by (field; lra). exact H2. }
  apply Rmult_lt_reg_r with (exp (x * x / 2)); [apply exp_pos |].
  rewrite Rinv_l by (apply Rgt_not_eq, exp_pos). nra.
Qed.

Lemma std_norm_cdf_limit_1 (eps : R) :
  0 < eps -> exists X, forall x, X < x -> 1 - eps < std_norm_cdf x <= 1.
Proof.
  intro Heps. destruct (gauss_small eps Heps) as [X HX].
  exists (Rmax 0 X). intros x Hx.
  assert (H0 : 0 < x) by (apply Rle_lt_trans with (2 := Hx), Rmax_l).
  assert (H1 : X < x) by (apply Rle_lt_trans with (2 := Hx), Rmax_r).
  pose proof (std_norm_cdf_tail x (Rlt_le _ _ H0)).
  pose proof (HX x H1). pose proof (std_norm_cdf_range x). lra.
Qed.

Lemma std_norm_cdf_limit_0 (eps : R) :
  0 < eps -> exists X, forall x, x < X -> 0 <= std_norm_cdf x < eps.
Proof.
  intro Heps. destruct (std_norm_cdf_limit_1 eps Heps) as [X HX].
  exists (- X). intros x Hx.
  assert (H : X < - x) by lra. apply HX in H.
  rewrite std_norm_cdf_opp in H. pose proof (std_norm_cdf_range x). lra.
Qed.

End NormalFacts.

(** ** Properties of the option pricer *)

(** The two identities that hold by construction hold in every arithmetic,
    so in particular bit for bit on binary64 floats. *)
Section PricerByConstruction.
Context {F : Type} {num : Float64 F}.

(** C6: [put_delta] is [call_delta] minus one, exactly: when [call_delta]
    returns [d], [put_delta] returns the result of the one subtraction
    [d - 1], and when [call_delta] raises, [put_delta] raises the same. *)
Theorem put_delta_is_call_delta_minus_one (S K T r sigma : F) :
  put_delta S K T r sigma =
  match call_delta S K T r sigma with
  | Ok d => Ok (f_sub d f_one)
  | Raise e => Raise e
  end.
Proof.
  unfold put_delta, bind.
  destruct (call_delta S K T r sigma) as [d | e]; reflexivity.
Qed.

(** C7: [put_vega] is [call_vega], exactly: the same value or the same
    exception. *)
Theorem put_vega_is_call_vega (S K T r sigma : F) :
  put_vega S K T r sigma = call_vega S K T r sigma.
Proof.
  unfold put_vega. reflexivity.
Qed.

End PricerByConstruction.

(** On binary64 floats the only exceptions are those of the two Python
    operators of [_d1]. *)
Section PricerOnFloats.
Variable L : NumLib.

Lemma float_pow_2_returns (a : float) :
  square_overflows a = false -> exists y, float_pow_2 L a = Ok y.
Proof.
  unfold square_overflows, float_pow_2. intro H.
  destruct (PrimFloat.is_nan a); [eexists; reflexivity |].
  destruct (PrimFloat.is_infinity a); [eexists; reflexivity |].
  destruct (PrimFloat.eqb a 0); [eexists; reflexivity |].
  destruct (PrimFloat.eqb (PrimFloat.abs a) 1); [eexists; reflexivity |].
  simpl in H. rewrite H. eexists; reflexivity.
Qed.

Lemma float_pow_2_raises (a : float) :
  square_overflows a = true -> float_pow_2 L a = Raise OverflowError.
Proof.
  unfold square_overflows, float_pow_2. intro H.
  destruct (PrimFloat.is_nan a); [discriminate |].
  destruct (PrimFloat.is_infinity a); [discriminate |].
  simpl in H. destruct (FloatFacts.infinite_square a H) as [H0 H1].
  rewrite H0, H1, H. reflexivity.
Qed.

(** Where [a ** 2] returns, it returns the square. *)
Lemma float_pow_2_square (a : float) :
  square_overflows a = false -> float_pow_2 L a = Ok (float_square L a).
Proof.
  unfold square_overflows, float_pow_2, float_square. intro H.
  destruct (PrimFloat.is_nan a); [reflexivity |].
  destruct (PrimFloat.is_infinity a); [reflexivity |].
  destruct (PrimFloat.eqb a 0); [reflexivity |].
  destruct (PrimFloat.eqb (PrimFloat.abs a) 1); [reflexivity |].
  simpl in H. rewrite H. reflexivity.
Qed.

Lemma d1_float_returns (S K T r sigma : float) :
  PrimFloat.eqb K 0%float = false -> square_overflows sigma = false ->
  exists d, _d1 (num := Binary64 L) S K T r sigma = Ok d.
Proof.
  intros HK Hs. unfold _d1. simpl. unfold float_truediv. rewrite HK. simpl.
  destruct (float_pow_2_returns sigma Hs) as [y ->]. simpl.
  eexists; reflexivity.
Qed.

Lemma d1_float_zero_strike (S K T r sigma : float) :
  PrimFloat.eqb K 0%float = true ->
  _d1 (num := Binary64 L) S K T r sigma = Raise ZeroDivisionError.
Proof.
  intros HK. unfold _d1. simpl. unfold float_truediv. rewrite HK. reflexivity.
Qed.

(** [_d1] and [_d2] evaluate the formulas of the specification. *)
Lemma d1_float_formula (S K T r sigma : float) :
  PrimFloat.eqb K 0%float = false -> square_overflows sigma = false ->
  _d1 (num := Binary64 L) S K T r sigma = Ok (spec_d1 (A := Rounded L) S K T r sigma).
Proof.
  intros HK Hs. unfold _d1. simpl. unfold float_truediv. rewrite HK. simpl.
  rewrite (float_pow_2_square sigma Hs). reflexivity.
Qed.

Lemma d2_float_formula (S K T r sigma : float) :
  PrimFloat.eqb K 0%float = false -> square_overflows sigma = false ->
  _d2 (num := Binary64 L) S K T r sigma = Ok (spec_d2 (A := Rounded L) S K T r sigma).
Proof.
  intros HK Hs. unfold _d2. rewrite (d1_float_formula S K T r sigma HK Hs).
  reflexivity.
Qed.

(** The discount factor times the strike, in either order of the source. *)
Lemma discounted_strike_float (K T r : float) :
  (K * lib_exp L (- r * T))%float = spec_discounted_strike (A := Rounded L) K T r /\
  (lib_exp L (- r * T) * K)%float = spec_discounted_strike (A := Rounded L) K T r.
Proof.
  unfold spec_discounted_strike. simpl. rewrite FloatFacts.mul_opp_l.
  split; [reflexivity | apply FloatFacts.mul_comm].
Qed.

(** C8, as the code has it: with a non-zero strike and a volatility whose
    square is in range, each of the six functions returns a float (possibly a
    NaN or an infinity), whatever the other arguments are. *)
Theorem pricer_returns_unless_python_raises (S K T r sigma : float) :
  PrimFloat.eqb K 0%float = false -> square_overflows sigma = false ->
  returns (call_value (num := Binary64 L) S K T r sigma) /\
  returns (put_value (num := Binary64 L) S K T r sigma) /\
  returns (call_delta (num := Binary64 L) S K T r sigma) /\
  returns (put_delta (num := Binary64 L) S K T r sigma) /\
  returns (call_vega (num := Binary64 L) S K T r sigma) /\
  returns (put_vega (num := Binary64 L) S K T r sigma).
Proof.
  intros HK Hs. destruct (d1_float_returns S K T r sigma HK Hs) as [d Hd].
  unfold returns, put_vega, put_delta, call_value, put_value, call_delta,
    call_vega, _d2.
  rewrite Hd. simpl. repeat split; eexists; reflexivity.
Qed.

(** X8: on binary64 floats a zero strike, of either sign, makes each of the
    six functions raise [ZeroDivisionError], whatever the other arguments are. *)
Theorem zero_strike_always_raises (S K T r sigma : float) :
  PrimFloat.eqb K 0%float = true ->
  call_value (num := Binary64 L) S K T r sigma = Raise ZeroDivisionError /\
  put_value (num := Binary64 L) S K T r sigma = Raise ZeroDivisionError /\
  call_delta (num := Binary64 L) S K T r sigma = Raise ZeroDivisionError /\
  put_delta (num := Binary64 L) S K T r sigma = Raise ZeroDivisionError /\
  call_vega (num := Binary64 L) S K T r sigma = Raise ZeroDivisionError /\
  put_vega (num := Binary64 L) S K T r sigma = Raise ZeroDivisionError.
Proof.
  intros HK. pose proof (d1_float_zero_strike S K T r sigma HK) as Hd.
  unfold put_vega, put_delta, call_value, put_value, call_delta, call_vega, _d2.
  rewrite Hd. repeat split; reflexivity.
Qed.

(** X9: with a non-zero strike, a finite volatility whose square is out of
    range makes each of the six functions raise [OverflowError]. *)
Theorem square_overflow_always_raises (S K T r sigma : float) :
  PrimFloat.eqb K 0%float = false -> square_overflows sigma = true ->
  call_value (num := Binary64 L) S K T r sigma = Raise OverflowError /\
  put_value (num := Binary64 L) S K T r sigma = Raise OverflowError /\
  call_delta (num := Binary64 L) S K T r sigma = Raise OverflowError /\
  put_delta (num := Binary64 L) S K T r sigma = Raise OverflowError /\
  call_vega (num := Binary64 L) S K T r sigma = Raise OverflowError /\
  put_vega (num := Binary64 L) S K T r sigma = Raise OverflowError.
Proof.
  intros HK Hs.
  assert (Hd : _d1 (num := Binary64 L) S K T r sigma = Raise OverflowError).
  { unfold _d1. simpl. unfold float_truediv. rewrite HK. simpl.
    rewrite (float_pow_2_raises sigma Hs). reflexivity. }
  unfold put_vega, put_delta, call_value, put_value, call_delta, call_vega, _d2.
  rewrite Hd. repeat split; reflexivity.
Qed.

(** C3, as the code has it: with a non-zero strike and a volatility whose
    square is in range, [call_value] returns [S Phi(d1) - K e^(-rT) Phi(d2)]
    with [d1] and [d2] as the specification writes them, every operation
    that of binary64 and [Phi] SciPy's. *)
Theorem call_value_evaluates_the_formula (S K T r sigma : float) :
  PrimFloat.eqb K 0%float = false -> square_overflows sigma = false ->
  call_value (num := Binary64 L) S K T r sigma
  = Ok (spec_call_value (A := Rounded L) S K T r sigma).
Proof.
  intros HK Hs. unfold call_value.
  rewrite (d1_float_formula S K T r sigma HK Hs),
    (d2_float_formula S K T r sigma HK Hs).
  cbn [bind]. unfold spec_call_value.
  rewrite <- (proj1 (discounted_strike_float K T r)). reflexivity.
Qed.

(** C9, as the code has it: when [d1] is a number, that is with a non-zero
    strike, a volatility whose square is in range and a [d1] that is no NaN,
    [call_delta] returns the value of SciPy's distribution function at [d1],
    a float in [[0, 1]], and [put_delta] returns that value minus one, a
    float in [[-1, 0]], given that SciPy's distribution function is a
    probability at every number. *)
Theorem deltas_within_range (S K T r sigma : float) :
  PrimFloat.eqb K 0%float = false -> square_overflows sigma = false ->
  PrimFloat.is_nan (spec_d1 (A := Rounded L) S K T r sigma) = false ->
  cdf_in_unit_interval L ->
  let c := lib_norm_cdf L (spec_d1 (A := Rounded L) S K T r sigma) in
  let p := (c - 1)%float in
  call_delta (num := Binary64 L) S K T r sigma = Ok c /\
  put_delta (num := Binary64 L) S K T r sigma = Ok p /\
  PrimFloat.leb 0%float c = true /\ PrimFloat.leb c 1%float = true /\
  PrimFloat.leb (-1)%float p = true /\ PrimFloat.leb p 0%float = true.
Proof.
  intros HK Hs Hnan Hcdf c p.
  destruct (Hcdf _ Hnan) as [H0 H1].
  destruct (FloatFacts.sub_one_range _ H0 H1) as [H2 H3].
  unfold put_delta, call_delta.
  rewrite (d1_float_formula S K T r sigma HK Hs). cbn [bind].
  repeat split; assumption.
Qed.

(** X19: with a non-zero strike and a volatility whose square is in range,
    each of the six functions returns the binary64 value of its formula in
    section 4.1 of the specification. *)
Theorem pricer_evaluates_the_formulas (S K T r sigma : float) :
  PrimFloat.eqb K 0%float = false -> square_overflows sigma = false ->
  put_value (num := Binary64 L) S K T r sigma
  = Ok (spec_put_value (A := Rounded L) S K T r sigma) /\
  call_delta (num := Binary64 L) S K T r sigma
  = Ok (spec_call_delta (A := Rounded L) S K T r sigma) /\
  put_delta (num := Binary64 L) S K T r sigma
  = Ok (spec_put_delta (A := Rounded L) S K T r sigma) /\
  call_vega (num := Binary64 L) S K T r sigma
  = Ok (spec_call_vega (A := Rounded L) S K T r sigma) /\
  put_vega (num := Binary64 L) S K T r sigma
  = Ok (spec_put_vega (A := Rounded L) S K T r sigma).
Proof.
  intros HK Hs.
  pose proof (d1_float_formula S K T r sigma HK Hs) as H1.
  pose proof (d2_float_formula S K T r sigma HK Hs) as H2.
  unfold put_value, put_delta, call_delta, put_vega, call_vega.
  rewrite H1, H2. cbn [bind]. unfold spec_put_value.
  rewrite <- (proj2 (discounted_strike_float K T r)).
  split; [reflexivity |]. split; [reflexivity |]. split; [reflexivity |].
  split; reflexivity.
Qed.

End PricerOnFloats.

(** Put-call parity is a property of the two formulas in exact arithmetic:
    the distribution function at [d] and at [-d] add up to one. *)
Section FormulasOverReals.
Local Open Scope R_scope.



End FormulasOverReals.


Section PricerAtConcreteFloats.
Local Open Scope float_scope.

(** C8, as the specification states it, fails: a strike of [0.0] is a float
    the functions can be called with, and each of the six raises
    [ZeroDivisionError] on it, whatever the library functions return. *)
Lemma pricer_raises_on_zero_strike :
  (forall L, call_value (num := Binary64 L) 100 0 1 0.0625 0.25 = Raise ZeroDivisionError) /\
  (forall L, put_value (num := Binary64 L) 100 0 1 0.0625 0.25 = Raise ZeroDivisionError) /\
  (forall L, call_delta (num := Binary64 L) 100 0 1 0.0625 0.25 = Raise ZeroDivisionError) /\
  (forall L, put_delta (num := Binary64 L) 100 0 1 0.0625 0.25 = Raise ZeroDivisionError) /\
  (forall L, call_vega (num := Binary64 L) 100 0 1 0.0625 0.25 = Raise ZeroDivisionError) /\
  (forall L, put_vega (num := Binary64 L) 100 0 1 0.0625 0.25 = Raise ZeroDivisionError).
Proof.
  assert (H : forall L, _d1 (num := Binary64 L) 100 0 1 0.0625 0.25
                        = Raise ZeroDivisionError).
  { intro L. apply d1_float_zero_strike. reflexivity. }
  unfold put_vega, put_delta, call_value, put_value, call_delta, call_vega, _d2.
  repeat split; intro L; rewrite (H L); reflexivity.
Qed.

Lemma pricer_returns_unless_python_raises_witness :
  PrimFloat.eqb 95 0 = false /\ square_overflows 0.25 = false /\
  forall L,
    returns (call_value (num := Binary64 L) 100 95 1 0.0625 0.25) /\
    returns (put_value (num := Binary64 L) 100 95 1 0.0625 0.25) /\
    returns (call_delta (num := Binary64 L) 100 95 1 0.0625 0.25) /\
    returns (put_delta (num := Binary64 L) 100 95 1 0.0625 0.25) /\
    returns (call_vega (num := Binary64 L) 100 95 1 0.0625 0.25) /\
    returns (put_vega (num := Binary64 L) 100 95 1 0.0625 0.25).
Proof.
  split; [reflexivity |]. split; [reflexivity |]. intro L.
  apply (pricer_returns_unless_python_raises L 100 95 1 0.0625 0.25); reflexivity.
Defined.

Lemma zero_strike_always_raises_witness :
  PrimFloat.eqb (-0) 0 = true /\
  forall L,
    call_value (num := Binary64 L) 100 (-0) 1 0.0625 0.25 = Raise ZeroDivisionError /\
    put_value (num := Binary64 L) 100 (-0) 1 0.0625 0.25 = Raise ZeroDivisionError /\
    call_delta (num := Binary64 L) 100 (-0) 1 0.0625 0.25 = Raise ZeroDivisionError /\
    put_delta (num := Binary64 L) 100 (-0) 1 0.0625 0.25 = Raise ZeroDivisionError /\
    call_vega (num := Binary64 L) 100 (-0) 1 0.0625 0.25 = Raise ZeroDivisionError /\
    put_vega (num := Binary64 L) 100 (-0) 1 0.0625 0.25 = Raise ZeroDivisionError.
Proof.
  split; [reflexivity |]. intro L.
  apply (zero_strike_always_raises L 100 (-0) 1 0.0625 0.25). reflexivity.
Defined.

Lemma square_overflow_always_raises_witness :
  PrimFloat.eqb 100 0 = false /\ square_overflows 0x1p+600 = true /\
  forall L,
    call_value (num := Binary64 L) 100 100 1 0.0625 0x1p+600 = Raise OverflowError /\
    put_value (num := Binary64 L) 100 100 1 0.0625 0x1p+600 = Raise OverflowError /\
    call_delta (num := Binary64 L) 100 100 1 0.0625 0x1p+600 = Raise OverflowError /\
    put_delta (num := Binary64 L) 100 100 1 0.0625 0x1p+600 = Raise OverflowError /\
    call_vega (num := Binary64 L) 100 100 1 0.0625 0x1p+600 = Raise OverflowError /\
    put_vega (num := Binary64 L) 100 100 1 0.0625 0x1p+600 = Raise OverflowError.
Proof.
  split; [reflexivity |]. split; [reflexivity |]. intro L.
  apply (square_overflow_always_raises L 100 100 1 0.0625 0x1p+600); reflexivity.
Defined.

(** C3, as the specification states it, fails: [S = 50], [K = 100], [T = 2]
    and [sigma = 2^512] are positive floats, and [call_value] raises
    [OverflowError] on them, where the specification gives it a value. *)
Lemma call_value_raises_on_large_volatility :
  (0 <? 50) = true /\ (0 <? 100) = true /\ (0 <? 2) = true /\
  (0 <? 0x1p+512) = true /\
  forall L, call_value (num := Binary64 L) 50 100 2 0.0625 0x1p+512 = Raise OverflowError.
Proof.
  repeat (split; [reflexivity |]). intro L.
  unfold call_value.
  assert (H : _d1 (num := Binary64 L) 50 100 2 0.0625 0x1p+512 = Raise OverflowError)
    by reflexivity.
  rewrite H. reflexivity.
Qed.

Lemma call_value_evaluates_the_formula_witness :
  PrimFloat.eqb 95 0 = false /\ square_overflows 0.25 = false /\
  forall L,
    call_value (num := Binary64 L) 100 95 1 0.0625 0.25
    = Ok (spec_call_value (A := Rounded L) 100 95 1 0.0625 0.25).
Proof.
  split; [reflexivity |]. split; [reflexivity |]. intro L.
  apply (call_value_evaluates_the_formula L 100 95 1 0.0625 0.25); reflexivity.
Defined.



(** C9, as the specification states it, fails: on the positive floats
    [S = 100], [K = 95], [T = 0.5], [sigma = 2^700] neither delta is a number
    in any interval, both raise [OverflowError]. *)
Lemma deltas_raise_on_large_volatility :
  (0 <? 100) = true /\ (0 <? 95) = true /\ (0 <? 0.5) = true /\
  (0 <? 0x1p+700) = true /\
  (forall L, call_delta (num := Binary64 L) 100 95 0.5 0.0625 0x1p+700
             = Raise OverflowError) /\
  (forall L, put_delta (num := Binary64 L) 100 95 0.5 0.0625 0x1p+700
             = Raise OverflowError).
Proof.
  assert (H : forall L, _d1 (num := Binary64 L) 100 95 0.5 0.0625 0x1p+700
                        = Raise OverflowError) by (intro L; reflexivity).
  repeat (split; [reflexivity |]).
  unfold put_delta, call_delta.
  split; intro L; rewrite (H L); reflexivity.
Qed.

Lemma crude_cdf_in_unit_interval : cdf_in_unit_interval crude.
Proof.
  intros x Hx. unfold crude, lib_norm_cdf. rewrite Hx.
  destruct (x <? 0); split; reflexivity.
Qed.

Lemma deltas_within_range_witness :
  PrimFloat.eqb 95 0 = false /\ square_overflows 0.25 = false /\
  PrimFloat.is_nan (spec_d1 (A := Rounded crude) 100 95 1 0.0625 0.25) = false /\
  cdf_in_unit_interval crude /\
  call_delta (num := Binary64 crude) 100 95 1 0.0625 0.25 = Ok 0.75 /\
  put_delta (num := Binary64 crude) 100 95 1 0.0625 0.25 = Ok (-0.25) /\
  (0 <=? 0.75) = true /\ (0.75 <=? 1) = true /\
  (-1 <=? -0.25) = true /\ (-0.25 <=? 0) = true.
Proof.
  split; [reflexivity |]. split; [reflexivity |].
  split; [vm_compute; reflexivity |].
  split; [exact crude_cdf_in_unit_interval |].
  apply (deltas_within_range crude 100 95 1 0.0625 0.25);
    [reflexivity | reflexivity | vm_compute; reflexivity
    | exact crude_cdf_in_unit_interval].
Defined.

Lemma pricer_evaluates_the_formulas_witness :
  PrimFloat.eqb 95 0 = false /\ square_overflows 0.25 = false /\
  forall L,
    put_value (num := Binary64 L) 100 95 1 0.0625 0.25
    = Ok (spec_put_value (A := Rounded L) 100 95 1 0.0625 0.25) /\
    call_delta (num := Binary64 L) 100 95 1 0.0625 0.25
    = Ok (spec_call_delta (A := Rounded L) 100 95 1 0.0625 0.25) /\
    put_delta (num := Binary64 L) 100 95 1 0.0625 0.25
    = Ok (spec_put_delta (A := Rounded L) 100 95 1 0.0625 0.25) /\
    call_vega (num := Binary64 L) 100 95 1 0.0625 0.25
    = Ok (spec_call_vega (A := Rounded L) 100 95 1 0.0625 0.25) /\
    put_vega (num := Binary64 L) 100 95 1 0.0625 0.25
    = Ok (spec_put_vega (A := Rounded L) 100 95 1 0.0625 0.25).
Proof.
  split; [reflexivity |]. split; [reflexivity |]. intro L.
  apply (pricer_evaluates_the_formulas L 100 95 1 0.0625 0.25); reflexivity.
Defined.

End PricerAtConcreteFloats.

(** ** Properties of the cointegration tester *)

Lemma sum_bools_nonneg (l : list bool) : (0 <= sum_bools l)%Z.
Proof. induction l as [| [] l IH]; cbn [sum_bools]; lia. Qed.

Lemma sum_isnull_zero (s : Series) :
  Z.eqb (sum_bools (isnull s)) 0 = true <-> no_missing s.
Proof.
  unfold isnull, no_missing. rewrite Z.eqb_eq.
  induction (values s) as [| v l IH]; cbn [map sum_bools].
  - split; [constructor | reflexivity].
  - pose proof (sum_bools_nonneg (map PrimFloat.is_nan l)) as Hl.
    destruct (PrimFloat.is_nan v) eqn:Hv; split; intro H.
    + lia.
    + inversion H; subst. congruence.
    + constructor; [exact Hv | apply IH; lia].
    + inversion H; subst. apply IH in H3. lia.
Qed.

Lemma sum_isnull_nonzero (s : Series) :
  has_missing s -> Z.eqb (sum_bools (isnull s)) 0 = false.
Proof.
  unfold isnull, has_missing. rewrite Z.eqb_neq.
  induction 1 as [v l Hv | v l _ IH]; cbn [map sum_bools].
  - rewrite Hv. pose proof (sum_bools_nonneg (map PrimFloat.is_nan l)). lia.
  - pose proof (sum_bools_nonneg (map PrimFloat.is_nan l)).
    destruct (PrimFloat.is_nan v); lia.
Qed.

Lemma index_equals_eq (a b : list Z) : index_equals a b = true <-> a = b.
Proof.
  revert b. induction a as [| i a IH]; intros [| j b]; simpl;
    try (split; [discriminate | discriminate]); try tauto.
  rewrite andb_true_iff, Z.eqb_eq, IH. split.
  - intros [-> ->]. reflexivity.
  - intros H. inversion H. auto.
Qed.

Lemma index_equals_neq (a b : list Z) : a <> b -> index_equals a b = false.
Proof.
  intro H. destruct (index_equals a b) eqn:E; [| reflexivity].
  apply index_equals_eq in E. contradiction.
Qed.

(** pandas against the specification's time indices. *)
Lemma diff_from_spec (s : Series) (i : Z) (v : float) :
  diff_from v s =
  map (fun t => (label_at ((i, v) :: s) t,
                 PrimFloat.sub (at_time ((i, v) :: s) t) (at_time ((i, v) :: s) (t - 1))))
      (seq 2 (length s)).
Proof.
  revert i v. induction s as [| [j w] s IH]; intros i v; [reflexivity |].
  cbn [diff_from length seq map]. f_equal.
  rewrite (IH j w), <- (seq_shift (length s) 2), map_map. apply map_ext_in.
  intros t Ht. apply in_seq in Ht.
  unfold label_at, at_time. cbn [index values map fst snd].
  destruct t as [| [| t]]; try lia. cbn. rewrite !Nat.sub_0_r. reflexivity.
Qed.

Lemma shift_from_spec (s : Series) (i : Z) (v : float) :
  shift_from v s =
  map (fun t => (label_at ((i, v) :: s) t, at_time ((i, v) :: s) (t - 1)))
      (seq 2 (length s)).
Proof.
  revert i v. induction s as [| [j w] s IH]; intros i v; [reflexivity |].
  cbn [shift_from length seq map]. f_equal.
  rewrite (IH j w), <- (seq_shift (length s) 2), map_map. apply map_ext_in.
  intros t Ht. apply in_seq in Ht.
  unfold label_at, at_time. cbn [index values map fst snd].
  destruct t as [| [| t]]; try lia. cbn. rewrite !Nat.sub_0_r. reflexivity.
Qed.

Lemma diff_iloc_spec (y : Series) : iloc_from_1 (diff y) = first_differences y.
Proof.
  destruct y as [| [i v] s]; [reflexivity |].
  unfold first_differences. cbn [diff iloc_from_1 tl length Nat.sub].
  rewrite Nat.sub_0_r. apply diff_from_spec.
Qed.

Lemma shift_iloc_spec (z : Series) : iloc_from_1 (shift z) = lagged_residuals z.
Proof.
  destruct z as [| [i v] s]; [reflexivity |].
  unfold lagged_residuals, shift. cbn [shift_from iloc_from_1 tl length Nat.sub].
  rewrite Nat.sub_0_r. apply shift_from_spec.
Qed.

(** The two inputs of the second fit. *)
Lemma index_diff_from (v : float) (s : Series) : index (diff_from v s) = index s.
Proof.
  revert v. induction s as [| [i w] s IH]; intro v; [reflexivity |].
  cbn [diff_from index map fst]. f_equal. apply IH.
Qed.

Lemma index_shift_from (v : float) (s : Series) : index (shift_from v s) = index s.
Proof.
  revert v. induction s as [| [i w] s IH]; intro v; [reflexivity |].
  cbn [shift_from index map fst]. f_equal. apply IH.
Qed.

Lemma values_shift_from (v : float) (s : Series) :
  values (shift_from v s) = removelast (v :: values s).
Proof.
  unfold values. revert v.
  induction s as [| [i w] s IH]; intro v; [reflexivity |].
  cbn [shift_from map snd]. rewrite (IH w). reflexivity.
Qed.

(** X17: the two series handed to the second fit are aligned.  When the
    residuals [z] carry the index of [y], [y.diff().iloc[1:]] and
    [z.shift().iloc[1:]] both carry the index of [y] without its first label;
    the lagged residuals are the values of [z] without the last one, so the
    NaN that [shift] puts in the first row is dropped and no other missing
    value is introduced. *)
Theorem short_run_inputs_are_aligned (ys z : Series) :
  index z = index ys ->
  index (iloc_from_1 (diff ys)) = tl (index ys) /\
  index (iloc_from_1 (shift z)) = tl (index ys) /\
  values (iloc_from_1 (shift z)) = removelast (values z) /\
  (no_missing z -> no_missing (iloc_from_1 (shift z))).
Proof.
  intro Hi.
  assert (Hv : values (iloc_from_1 (shift z)) = removelast (values z)).
  { destruct z as [| [i v] z]; [reflexivity |].
    unfold shift. cbn [shift_from iloc_from_1 tl]. rewrite values_shift_from.
    reflexivity. }
  split; [| split; [| split]].
  - destruct ys as [| [i v] ys]; [reflexivity |].
    cbn [diff iloc_from_1 tl]. rewrite index_diff_from. reflexivity.
  - rewrite <- Hi. destruct z as [| [i v] z]; [reflexivity |].
    unfold shift. cbn [shift_from iloc_from_1 tl]. rewrite index_shift_from.
    reflexivity.
  - exact Hv.
  - unfold no_missing. rewrite Hv. rewrite !Forall_forall.
    intros Hz v Hin. apply Hz.
    clear - Hin. induction (values z) as [| a [| b l] IH]; cbn in *; tauto.
Qed.

Section CointegrationProperties.
Context {sm : StatsModels}.
Local Open Scope py_scope.

Lemma input_assertions_valid (ys xs : Series) (tr : list Event) :
  valid_pair ys xs ->
  input_assertions (PySeries ys) (PySeries xs) tr = (Ok (ys, xs), tr).
Proof.
  intros (Hi & Hy & Hx). unfold input_assertions, pbind, py_assert.
  apply sum_isnull_zero in Hy, Hx. apply index_equals_eq in Hi.
  rewrite Hy, Hx, Hi. reflexivity.
Qed.

Lemma input_assertions_invalid (ys xs : Series) (tr : list Event) :
  index ys <> index xs \/ has_missing ys \/ has_missing xs ->
  exists msg,
    input_assertions (PySeries ys) (PySeries xs) tr = (Raise (AssertionError msg), tr).
Proof.
  intros H. unfold input_assertions, pbind, py_assert.
  destruct (Z.eqb (sum_bools (isnull ys)) 0) eqn:Ey; [| eexists; reflexivity].
  destruct (Z.eqb (sum_bools (isnull xs)) 0) eqn:Ex; [| eexists; reflexivity].
  destruct (index_equals (index ys) (index xs)) eqn:Ei; [| eexists; reflexivity].
  exfalso. destruct H as [H | [H | H]].
  - apply index_equals_eq in Ei. contradiction.
  - apply sum_isnull_nonzero in H. congruence.
  - apply sum_isnull_nonzero in H. congruence.
Qed.

(** The assertions call no library function. *)
Lemma input_assertions_trace (y x : PyObj) (tr : list Event) :
  snd (input_assertions y x tr) = tr.
Proof.
  unfold input_assertions, pbind, py_assert.
  destruct y; try reflexivity. destruct x; try reflexivity.
  destruct (Z.eqb (sum_bools (isnull s)) 0); [| reflexivity].
  destruct (Z.eqb (sum_bools (isnull s0)) 0); [| reflexivity].
  destruct (index_equals (index s) (index s0)); reflexivity.
Qed.

(** C2, as the code has it: on a valid pair, when the fit of [y] on [x] with
    a constant succeeds and gives two coefficients [c] and [gamma], and the
    fit, with no constant, of the first differences [y_t - y_(t-1)] on the
    lagged residuals [z_(t-1)], [t >= 2], succeeds and gives [alpha], the
    function makes these library calls and no other, in this order, and
    returns [(c, gamma, alpha, z)], with [z] the residuals of the first fit as
    they are, one per time point, not the lagged ones of the second fit. *)
Theorem estimate_returns_the_two_fits (ys xs : Series) (tr : list Event)
    (fit1 fit2 : OLSResults) (c gamma alpha : float) (rest : list float) :
  valid_pair ys xs ->
  OLS_fit ys (ExogFrame (add_constant xs)) (Some true) = Ok fit1 ->
  params fit1 = [c; gamma] ->
  OLS_fit (first_differences ys) (ExogSeries (lagged_residuals (resid fit1))) None
  = Ok fit2 ->
  params fit2 = alpha :: rest ->
  estimate_long_run_short_run_relationships (PySeries ys) (PySeries xs) tr
  = (Ok (c, gamma, alpha, resid fit1),
     tr ++ [CallAddConstant xs;
            CallOLS ys (ExogFrame (add_constant xs)) (Some true);
            CallOLS (first_differences ys)
                    (ExogSeries (lagged_residuals (resid fit1))) None]) /\
  length (lagged_residuals (resid fit1)) = (length (resid fit1) - 1)%nat.
Proof.
  intros Hv H1 Hp1 H2 Hp2. split.
  - unfold estimate_long_run_short_run_relationships.
    unfold pbind at 1. rewrite (input_assertions_valid ys xs tr Hv).
    unfold pbind, call. rewrite H1, Hp1. cbn [unpack_2 ret].
    rewrite diff_iloc_spec, shift_iloc_spec, H2, Hp2.
    cbn [getitem_0 ret]. rewrite <- !app_assoc. reflexivity.
  - unfold lagged_residuals. rewrite length_map, length_seq. reflexivity.
Qed.

(** C4: when the indices differ or a series has a missing value, both
    functions raise an [AssertionError] and the record of library calls is as
    it was: no regression and no test was attempted. *)
Theorem invalid_input_is_rejected_first (ys xs : Series) (tr : list Event) :
  index ys <> index xs \/ has_missing ys \/ has_missing xs ->
  exists msg,
    estimate_long_run_short_run_relationships (PySeries ys) (PySeries xs) tr
    = (Raise (AssertionError msg), tr) /\
    engle_granger_two_step_cointegration_test (PySeries ys) (PySeries xs) tr
    = (Raise (AssertionError msg), tr).
Proof.
  intros H. destruct (input_assertions_invalid ys xs tr H) as [msg Hmsg].
  exists msg.
  unfold estimate_long_run_short_run_relationships,
    engle_granger_two_step_cointegration_test.
  unfold pbind at 1 7. rewrite Hmsg. split; reflexivity.
Qed.


(** C10: an argument that is not a [pd.Series] makes both functions raise
    the [AssertionError] of the first [isinstance] assertion it fails, with no
    library call made: that of [y] when [y] is no series, that of [x] when
    only [x] is none. *)
Theorem non_series_is_rejected_first (y x : PyObj) (tr : list Event) :
  isinstance_Series y = false \/ isinstance_Series x = false ->
  let msg :=
    if isinstance_Series y
    then "Input series x should be of type pd.Series"%string
    else "Input series y should be of type pd.Series"%string in
  estimate_long_run_short_run_relationships y x tr
  = (Raise (AssertionError msg), tr) /\
  engle_granger_two_step_cointegration_test y x tr
  = (Raise (AssertionError msg), tr).
Proof.
  intros H.
  assert (Ha : input_assertions y x tr
    = (Raise (AssertionError
         (if isinstance_Series y
          then "Input series x should be of type pd.Series"%string
          else "Input series y should be of type pd.Series"%string)), tr)).
  { destruct y; try reflexivity.
    destruct x; try reflexivity.
    destruct H; discriminate. }
  unfold estimate_long_run_short_run_relationships,
    engle_granger_two_step_cointegration_test.
  unfold pbind at 1 7. rewrite Ha. split; reflexivity.
Qed.

(** X15: on a valid pair, when both fits succeed the function makes three
    library calls and no other: [add_constant(x)], the fit of [y] on it, and the fit
    of [y.diff().iloc[1:]] on [z.shift().iloc[1:]]; it returns the
    coefficients of the two fits and the residuals [z] of the first. *)
Theorem estimate_success_calls (ys xs : Series) (tr : list Event)
    (fit1 fit2 : OLSResults) (c gamma alpha : float) (rest : list float) :
  valid_pair ys xs ->
  OLS_fit ys (ExogFrame (add_constant xs)) (Some true) = Ok fit1 ->
  params fit1 = [c; gamma] ->
  OLS_fit (iloc_from_1 (diff ys)) (ExogSeries (iloc_from_1 (shift (resid fit1)))) None
  = Ok fit2 ->
  params fit2 = alpha :: rest ->
  estimate_long_run_short_run_relationships (PySeries ys) (PySeries xs) tr
  = (Ok (c, gamma, alpha, resid fit1),
     tr ++ [CallAddConstant xs;
            CallOLS ys (ExogFrame (add_constant xs)) (Some true);
            CallOLS (iloc_from_1 (diff ys))
                    (ExogSeries (iloc_from_1 (shift (resid fit1)))) None]).
Proof.
  intros Hv H1 Hp1 H2 Hp2.
  unfold estimate_long_run_short_run_relationships.
  unfold pbind at 1. rewrite (input_assertions_valid ys xs tr Hv).
  unfold pbind, call. rewrite H1, Hp1. cbn [unpack_2 ret]. rewrite H2, Hp2.
  cbn [getitem_0 ret]. rewrite <- !app_assoc. reflexivity.
Qed.

(** *** Errors, edge cases and the record of library calls *)

Lemma engle_granger_of_estimate (y x : PyObj) (tr : list Event) :
  engle_granger_two_step_cointegration_test y x tr
  = spec_unit_root_test (estimate_long_run_short_run_relationships y x tr).
Proof.
  unfold engle_granger_two_step_cointegration_test. unfold pbind at 1.
  pose proof (input_assertions_trace y x tr) as Htr.
  destruct (input_assertions y x tr) as [[[ys xs] | e] tr0] eqn:Ha;
    simpl in Htr; subst tr0.
  - unfold pbind at 1.
    destruct (estimate_long_run_short_run_relationships y x tr)
      as [[[[[c gamma] alpha] z] | e] tr1]; [| reflexivity].
    unfold spec_unit_root_test, pbind, call, ret.
    destruct (adfuller z 1 None); reflexivity.
  - unfold estimate_long_run_short_run_relationships.
    unfold pbind at 1. rewrite Ha. reflexivity.
Qed.

(** Both functions raise [e] and leave the record of calls at [tr']. *)
Definition both_raise (y x : PyObj) (tr : list Event) (e : PyExc)
    (tr' : list Event) : Prop :=
  estimate_long_run_short_run_relationships y x tr = (Raise e, tr') /\
  engle_granger_two_step_cointegration_test y x tr = (Raise e, tr').

Lemma both_raise_of_estimate (y x : PyObj) (tr : list Event) (e : PyExc)
    (tr' : list Event) :
  estimate_long_run_short_run_relationships y x tr = (Raise e, tr') ->
  both_raise y x tr e tr'.
Proof.
  intro H. split; [exact H |]. rewrite engle_granger_of_estimate, H. reflexivity.
Qed.

Lemma input_assertions_message (ys xs : Series) (tr : list Event) (msg : string) :
  input_assertions (PySeries ys) (PySeries xs) tr = (Raise (AssertionError msg), tr) ->
  both_raise (PySeries ys) (PySeries xs) tr (AssertionError msg) tr.
Proof.
  intro H. apply both_raise_of_estimate.
  unfold estimate_long_run_short_run_relationships. unfold pbind at 1.
  rewrite H. reflexivity.
Qed.

(** X10: the assertions are tried in the order of the source, and the first
    one that fails names the fault: a missing value in [y] is reported as
    [y]'s whatever [x] is; one in [x] is reported when [y] has none; an index
    mismatch is reported only when neither series has a missing value. *)
Theorem validation_reports_first_failure (ys xs : Series) (tr : list Event) :
  (has_missing ys ->
   both_raise (PySeries ys) (PySeries xs) tr
     (AssertionError "Input series y has nan-values. Unhandled case.") tr) /\
  (no_missing ys -> has_missing xs ->
   both_raise (PySeries ys) (PySeries xs) tr
     (AssertionError "Input series x has nan-values. Unhandled case.") tr) /\
  (no_missing ys -> no_missing xs -> index ys <> index xs ->
   both_raise (PySeries ys) (PySeries xs) tr
     (AssertionError "The two input series y and x do not have the same index.") tr).
Proof.
  split; [| split].
  - intro Hy. apply input_assertions_message.
    unfold input_assertions, pbind, py_assert.
    rewrite (sum_isnull_nonzero ys Hy). reflexivity.
  - intros Hy Hx. apply input_assertions_message.
    unfold input_assertions, pbind, py_assert.
    apply sum_isnull_zero in Hy. rewrite Hy, (sum_isnull_nonzero xs Hx). reflexivity.
  - intros Hy Hx Hi. apply input_assertions_message.
    unfold input_assertions, pbind, py_assert.
    apply sum_isnull_zero in Hy, Hx.
    rewrite Hy, Hx, (index_equals_neq _ _ Hi). reflexivity.
Qed.

(** X12: an exception of the first fit is passed on unchanged by both
    functions, and nothing is called after it: no second fit and no unit-root
    test. *)
Theorem first_fit_failure_is_passed_on
    (ys xs : Series) (tr : list Event) (e : PyExc) :
  valid_pair ys xs ->
  OLS_fit ys (ExogFrame (add_constant xs)) (Some true) = Raise e ->
  both_raise (PySeries ys) (PySeries xs) tr e
    (tr ++ [CallAddConstant xs;
            CallOLS ys (ExogFrame (add_constant xs)) (Some true)]).
Proof.
  intros Hv H1. apply both_raise_of_estimate.
  unfold estimate_long_run_short_run_relationships.
  unfold pbind at 1. rewrite (input_assertions_valid ys xs tr Hv).
  unfold pbind, call. rewrite H1, <- app_assoc. reflexivity.
Qed.

(** X13: when the first fit does not return exactly two coefficients, the
    unpacking [c, gamma = params] raises [ValueError] in both functions,
    before any second fit. *)
Theorem wrong_coefficient_count_raises
    (ys xs : Series) (tr : list Event) (fit1 : OLSResults) :
  valid_pair ys xs ->
  OLS_fit ys (ExogFrame (add_constant xs)) (Some true) = Ok fit1 ->
  length (params fit1) <> 2%nat ->
  both_raise (PySeries ys) (PySeries xs) tr ValueError
    (tr ++ [CallAddConstant xs;
            CallOLS ys (ExogFrame (add_constant xs)) (Some true)]).
Proof.
  intros Hv H1 Hlen. apply both_raise_of_estimate.
  unfold estimate_long_run_short_run_relationships.
  unfold pbind at 1. rewrite (input_assertions_valid ys xs tr Hv).
  unfold pbind, call. rewrite H1, <- app_assoc.
  destruct (params fit1) as [| a [| b [| c l]]]; try reflexivity.
  exfalso. apply Hlen. reflexivity.
Qed.

(** X14: an exception of the second fit is passed on unchanged by both
    functions, with the three calls made recorded and no unit-root test. *)
Theorem second_fit_failure_is_passed_on
    (ys xs : Series) (tr : list Event) (fit1 : OLSResults) (c gamma : float)
    (e : PyExc) :
  valid_pair ys xs ->
  OLS_fit ys (ExogFrame (add_constant xs)) (Some true) = Ok fit1 ->
  params fit1 = [c; gamma] ->
  OLS_fit (iloc_from_1 (diff ys)) (ExogSeries (iloc_from_1 (shift (resid fit1)))) None
  = Raise e ->
  both_raise (PySeries ys) (PySeries xs) tr e
    (tr ++ [CallAddConstant xs;
            CallOLS ys (ExogFrame (add_constant xs)) (Some true);
            CallOLS (iloc_from_1 (diff ys))
                    (ExogSeries (iloc_from_1 (shift (resid fit1)))) None]).
Proof.
  intros Hv H1 Hp H2. apply both_raise_of_estimate.
  unfold estimate_long_run_short_run_relationships.
  unfold pbind at 1. rewrite (input_assertions_valid ys xs tr Hv).
  unfold pbind, call. rewrite H1, Hp. cbn [unpack_2 ret]. rewrite H2.
  rewrite <- !app_assoc. reflexivity.
Qed.

(** The three outcomes of the assertions on two series. *)
Lemma input_assertions_cases (ys xs : Series) (tr : list Event) :
  (valid_pair ys xs /\
   input_assertions (PySeries ys) (PySeries xs) tr = (Ok (ys, xs), tr)) \/
  (~ valid_pair ys xs /\
   exists msg,
     input_assertions (PySeries ys) (PySeries xs) tr
     = (Raise (AssertionError msg), tr)).
Proof.
  unfold input_assertions, pbind, py_assert, valid_pair.
  destruct (Z.eqb (sum_bools (isnull ys)) 0) eqn:Ey.
  - destruct (Z.eqb (sum_bools (isnull xs)) 0) eqn:Ex.
    + destruct (index_equals (index ys) (index xs)) eqn:Ei.
      * left. apply sum_isnull_zero in Ey, Ex. apply index_equals_eq in Ei.
        split; [tauto | reflexivity].
      * right. split; [| eexists; reflexivity].
        intros (Hi & _ & _). apply index_equals_eq in Hi. congruence.
    + right. split; [| eexists; reflexivity].
      intros (_ & _ & Hx). apply sum_isnull_zero in Hx. congruence.
  - right. split; [| eexists; reflexivity].
    intros (_ & Hy & _). apply sum_isnull_zero in Hy. congruence.
Qed.

(** X11: the first fit is attempted exactly on the valid pairs: the record
    of calls grows by [add_constant(x)] and the fit of [y] on it when, and
    only when, the two series have the same index and no missing value. *)
Theorem first_fit_attempted_iff_valid (ys xs : Series) (tr : list Event) :
  (exists evs,
     snd (estimate_long_run_short_run_relationships (PySeries ys) (PySeries xs) tr)
     = tr ++ CallAddConstant xs
             :: CallOLS ys (ExogFrame (add_constant xs)) (Some true) :: evs)
  <-> valid_pair ys xs.
Proof.
  unfold estimate_long_run_short_run_relationships. unfold pbind at 1.
  destruct (input_assertions_cases ys xs tr) as [[Hv Ha] | [Hn [msg Ha]]];
    rewrite Ha; split.
  - intros _. exact Hv.
  - intros _. unfold pbind, call.
    destruct (OLS_fit ys (ExogFrame (add_constant xs)) (Some true)) as [fit | e].
    + destruct (params fit) as [| a [| b [| c l]]];
        try (exists []; cbn; rewrite <- app_assoc; reflexivity).
      cbn [unpack_2 ret].
      destruct (OLS_fit _ _ None) as [fit2 | e2].
      * destruct (params fit2); cbn;
          eexists; rewrite <- !app_assoc; reflexivity.
      * cbn. eexists. rewrite <- !app_assoc. reflexivity.
    + exists []. cbn. rewrite <- app_assoc. reflexivity.
  - intros [evs H]. cbn in H. exfalso.
    apply (f_equal (@length Event)) in H. rewrite length_app in H. cbn in H. lia.
  - intro Hv. contradiction.
Qed.

(** X16: whatever the arguments and whatever the library returns, the
    estimation only adds to the record of calls, adds at most three, and
    never calls [adfuller]; the test adds at most four. *)
Theorem library_calls_are_bounded (y x : PyObj) (tr : list Event) :
  (exists evs,
     snd (estimate_long_run_short_run_relationships y x tr) = tr ++ evs /\
     (length evs <= 3)%nat /\
     forall z maxlag autolag, ~ In (CallAdfuller z maxlag autolag) evs) /\
  (exists evs,
     snd (engle_granger_two_step_cointegration_test y x tr) = tr ++ evs /\
     (length evs <= 4)%nat).
Proof.
  assert (Hest : exists evs,
     snd (estimate_long_run_short_run_relationships y x tr) = tr ++ evs /\
     (length evs <= 3)%nat /\
     forall z maxlag autolag, ~ In (CallAdfuller z maxlag autolag) evs).
  { assert (Hnil : forall r : result (float * float * float * Series),
              exists evs, snd (r, tr) = tr ++ evs /\ (length evs <= 3)%nat /\
                forall z maxlag autolag, ~ In (CallAdfuller z maxlag autolag) evs).
    { intro r. exists []. rewrite app_nil_r. repeat split; [cbn; lia | intros ? ? ? []]. }
    unfold estimate_long_run_short_run_relationships. unfold pbind at 1.
    destruct y as [ys | | | |]; try apply Hnil.
    destruct x as [xs | | | |]; try apply Hnil.
    destruct (input_assertions_cases ys xs tr) as [[_ Ha] | [_ [msg Ha]]];
      rewrite Ha; [| apply Hnil].
    unfold pbind, call.
    destruct (OLS_fit ys (ExogFrame (add_constant xs)) (Some true)) as [fit | e].
    - destruct (params fit) as [| a [| b [| c l]]];
        try (eexists; split; [cbn; rewrite <- app_assoc; reflexivity |];
             split; [cbn; lia | cbn; intuition discriminate]).
      cbn [unpack_2 ret].
      destruct (OLS_fit _ _ None) as [fit2 | e2];
        [destruct (params fit2) |];
        (eexists; split; [cbn; rewrite <- !app_assoc; reflexivity |];
         split; [cbn; lia | cbn; intuition discriminate]).
    - eexists. split; [cbn; rewrite <- app_assoc; reflexivity |].
      split; [cbn; lia | cbn; intuition discriminate]. }
  split; [exact Hest |].
  destruct Hest as (evs & Hevs & Hlen & _).
  rewrite engle_granger_of_estimate.
  destruct (estimate_long_run_short_run_relationships y x tr)
    as [[[[[c gamma] alpha] z] | e] tr1]; cbn in Hevs; subst tr1; cbn.
  - exists (evs ++ [CallAdfuller z 1 None]).
    rewrite app_assoc, length_app. cbn. split; [reflexivity | lia].
  - exists evs. split; [reflexivity | lia].
Qed.

End CointegrationProperties.

(** ** Concrete runs *)

Section ConcreteSeries.
Local Open Scope float_scope.

Example diff_sample_y :
  diff sample_y = [(0%Z, nan); (1%Z, 4); (2%Z, -2)].
Proof. reflexivity. Qed.

Example shift_sample_x :
  shift sample_x = [(0%Z, nan); (1%Z, 0); (2%Z, 2)].
Proof. reflexivity. Qed.

Example first_differences_sample_y :
  first_differences sample_y = [(1%Z, 4); (2%Z, -2)].
Proof. reflexivity. Qed.

Example lagged_residuals_sample_x :
  lagged_residuals sample_x = [(1%Z, 0); (2%Z, 2)].
Proof. reflexivity. Qed.

(** The whole estimation on the samples: [y = 2 + 0.5 x + z] with residuals
    [-1, 2, -1], then [4, -2] regressed on [-1, 2]; three library calls. *)
Example estimate_sample_run :
  estimate_long_run_short_run_relationships (sm := textbook)
    (PySeries sample_y) (PySeries sample_x) []
  = (Ok (2, 0.5, -8 / 5, [(0%Z, -1); (1%Z, 2); (2%Z, -1)]),
     [CallAddConstant sample_x;
      CallOLS sample_y (ExogFrame (add_constant (StatsModels := textbook) sample_x))
              (Some true);
      CallOLS [(1%Z, 4); (2%Z, -2)] (ExogSeries [(1%Z, -1); (2%Z, 2)]) None]).
Proof. vm_compute. reflexivity. Qed.

(** The test on the samples calls [adfuller] once, on the residuals, and
    passes its exception on. *)
Example engle_granger_sample_run :
  engle_granger_two_step_cointegration_test (sm := textbook)
    (PySeries sample_y) (PySeries sample_x) []
  = (Raise ValueError,
     [CallAddConstant sample_x;
      CallOLS sample_y (ExogFrame (add_constant (StatsModels := textbook) sample_x))
              (Some true);
      CallOLS [(1%Z, 4); (2%Z, -2)] (ExogSeries [(1%Z, -1); (2%Z, 2)]) None;
      CallAdfuller [(0%Z, -1); (1%Z, 2); (2%Z, -1)] 1 None]).
Proof. vm_compute. reflexivity. Qed.

Lemma sample_pair_valid : valid_pair sample_y sample_x.
Proof.
  split; [reflexivity |]. split; repeat constructor.
Qed.


Lemma invalid_input_is_rejected_first_witness :
  index sample_y <> index sample_x_shifted /\
  forall (sm : StatsModels) (tr : list Event),
  exists msg,
    estimate_long_run_short_run_relationships
      (PySeries sample_y) (PySeries sample_x_shifted) tr
    = (Raise (AssertionError msg), tr) /\
    engle_granger_two_step_cointegration_test
      (PySeries sample_y) (PySeries sample_x_shifted) tr
    = (Raise (AssertionError msg), tr).
Proof.
  split; [discriminate |]. intros sm tr.
  apply (invalid_input_is_rejected_first sample_y sample_x_shifted tr).
  left. discriminate.
Defined.

(** A missing value in [x] is reported by the fourth assertion. *)
Example missing_value_message :
  forall (sm : StatsModels) (tr : list Event),
    estimate_long_run_short_run_relationships
      (PySeries sample_y) (PySeries sample_x_missing) tr
    = (Raise (AssertionError "Input series x has nan-values. Unhandled case."), tr).
Proof. intros sm tr. reflexivity. Qed.

Lemma non_series_is_rejected_first_witness :
  isinstance_Series (PyList [1; 5; 3]) = false /\
  forall (sm : StatsModels) (tr : list Event),
    estimate_long_run_short_run_relationships (PyList [1; 5; 3]) (PySeries sample_x) tr
    = (Raise (AssertionError "Input series y should be of type pd.Series"), tr) /\
    engle_granger_two_step_cointegration_test (PyList [1; 5; 3]) (PySeries sample_x) tr
    = (Raise (AssertionError "Input series y should be of type pd.Series"), tr).
Proof.
  split; [reflexivity |]. intros sm tr.
  apply (non_series_is_rejected_first (PyList [1; 5; 3]) (PySeries sample_x) tr).
  left. reflexivity.
Defined.

(** The two fits of the stand-in library on the samples. *)
Definition sample_fit1 : OLSResults :=
  {| params := [2; 0.5]; resid := [(0%Z, -1); (1%Z, 2); (2%Z, -1)] |}.

Definition sample_fit2 : OLSResults :=
  {| params := [-8 / 5];
     resid := [(1%Z, 4 - -8 / 5 * -1); (2%Z, -2 - -8 / 5 * 2)] |}.

(** C2, as the specification states it, fails: [y = 1, 5, 3] and
    [x = 3, 3, 3] are a valid pair, and the estimation raises [ValueError] on
    it.  [add_constant] adds no column to a series that is already a non-zero
    constant, the first fit gives one coefficient, and unpacking it into [c]
    and [gamma] fails, before any second fit. *)
Lemma estimate_raises_on_constant_x :
  valid_pair sample_y sample_x_constant /\
  estimate_long_run_short_run_relationships (sm := textbook)
    (PySeries sample_y) (PySeries sample_x_constant) []
  = (Raise ValueError,
     [CallAddConstant sample_x_constant;
      CallOLS sample_y
        (ExogFrame (add_constant (StatsModels := textbook) sample_x_constant))
        (Some true)]).
Proof.
  split; [split; [reflexivity | split; repeat constructor] |].
  vm_compute. reflexivity.
Qed.

Lemma estimate_returns_the_two_fits_witness :
  valid_pair sample_y sample_x /\
  OLS_fit (StatsModels := textbook) sample_y
    (ExogFrame (add_constant (StatsModels := textbook) sample_x)) (Some true)
  = Ok sample_fit1 /\
  OLS_fit (StatsModels := textbook) (first_differences sample_y)
    (ExogSeries (lagged_residuals (resid sample_fit1))) None
  = Ok sample_fit2 /\
  estimate_long_run_short_run_relationships (sm := textbook)
    (PySeries sample_y) (PySeries sample_x) []
  = (Ok (2, 0.5, -8 / 5, resid sample_fit1),
     [] ++ [CallAddConstant sample_x;
            CallOLS sample_y
              (ExogFrame (add_constant (StatsModels := textbook) sample_x)) (Some true);
            CallOLS (first_differences sample_y)
              (ExogSeries (lagged_residuals (resid sample_fit1))) None]) /\
  length (lagged_residuals (resid sample_fit1)) = (length (resid sample_fit1) - 1)%nat.
Proof.
  assert (H1 : OLS_fit (StatsModels := textbook) sample_y
                 (ExogFrame (add_constant (StatsModels := textbook) sample_x)) (Some true)
               = Ok sample_fit1) by (vm_compute; reflexivity).
  assert (H2 : OLS_fit (StatsModels := textbook) (first_differences sample_y)
                 (ExogSeries (lagged_residuals (resid sample_fit1))) None
               = Ok sample_fit2) by (vm_compute; reflexivity).
  split; [exact sample_pair_valid |].
  split; [exact H1 |]. split; [exact H2 |].
  exact (estimate_returns_the_two_fits (sm := textbook) sample_y sample_x []
           sample_fit1 sample_fit2 2 0.5 (-8 / 5) []
           sample_pair_valid H1 eq_refl H2 eq_refl).
Defined.

Lemma estimate_success_calls_witness :
  valid_pair sample_y sample_x /\
  OLS_fit (StatsModels := textbook) sample_y
    (ExogFrame (add_constant (StatsModels := textbook) sample_x)) (Some true)
  = Ok sample_fit1 /\
  OLS_fit (StatsModels := textbook) (iloc_from_1 (diff sample_y))
    (ExogSeries (iloc_from_1 (shift (resid sample_fit1)))) None
  = Ok sample_fit2 /\
  estimate_long_run_short_run_relationships (sm := textbook)
    (PySeries sample_y) (PySeries sample_x) []
  = (Ok (2, 0.5, -8 / 5, resid sample_fit1),
     [] ++ [CallAddConstant sample_x;
            CallOLS sample_y
              (ExogFrame (add_constant (StatsModels := textbook) sample_x)) (Some true);
            CallOLS (iloc_from_1 (diff sample_y))
              (ExogSeries (iloc_from_1 (shift (resid sample_fit1)))) None]).
Proof.
  assert (H1 : OLS_fit (StatsModels := textbook) sample_y
                 (ExogFrame (add_constant (StatsModels := textbook) sample_x)) (Some true)
               = Ok sample_fit1) by (vm_compute; reflexivity).
  assert (H2 : OLS_fit (StatsModels := textbook) (iloc_from_1 (diff sample_y))
                 (ExogSeries (iloc_from_1 (shift (resid sample_fit1)))) None
               = Ok sample_fit2) by (vm_compute; reflexivity).
  split; [exact sample_pair_valid |].
  split; [exact H1 |]. split; [exact H2 |].
  exact (estimate_success_calls (sm := textbook) sample_y sample_x []
           sample_fit1 sample_fit2 2 0.5 (-8 / 5) []
           sample_pair_valid H1 eq_refl H2 eq_refl).
Defined.

(** X10 on the samples: [y] and [x] both with a missing value, only [x]
    with one, and clean series with shifted labels. *)
Lemma validation_reports_first_failure_witness :
  (has_missing sample_y_missing /\
   forall (sm : StatsModels) (tr : list Event),
     both_raise (PySeries sample_y_missing) (PySeries sample_x_missing) tr
       (AssertionError "Input series y has nan-values. Unhandled case.") tr) /\
  (no_missing sample_y /\ has_missing sample_x_missing /\
   forall (sm : StatsModels) (tr : list Event),
     both_raise (PySeries sample_y) (PySeries sample_x_missing) tr
       (AssertionError "Input series x has nan-values. Unhandled case.") tr) /\
  (no_missing sample_y /\ no_missing sample_x_shifted /\
   index sample_y <> index sample_x_shifted /\
   forall (sm : StatsModels) (tr : list Event),
     both_raise (PySeries sample_y) (PySeries sample_x_shifted) tr
       (AssertionError "The two input series y and x do not have the same index.") tr).
Proof.
  assert (Hym : has_missing sample_y_missing)
    by (apply Exists_cons_tl, Exists_cons_hd; reflexivity).
  assert (Hxm : has_missing sample_x_missing)
    by (apply Exists_cons_tl, Exists_cons_hd; reflexivity).
  assert (Hy : no_missing sample_y) by (repeat constructor).
  assert (Hxs : no_missing sample_x_shifted) by (repeat constructor).
  assert (Hi : index sample_y <> index sample_x_shifted) by discriminate.
  split; [| split].
  - split; [exact Hym |]. intros sm tr.
    exact (proj1 (validation_reports_first_failure
                    sample_y_missing sample_x_missing tr) Hym).
  - split; [exact Hy |]. split; [exact Hxm |]. intros sm tr.
    exact (proj1 (proj2 (validation_reports_first_failure
                           sample_y sample_x_missing tr)) Hy Hxm).
  - split; [exact Hy |]. split; [exact Hxs |]. split; [exact Hi |]. intros sm tr.
    exact (proj2 (proj2 (validation_reports_first_failure
                           sample_y sample_x_shifted tr)) Hy Hxs Hi).
Defined.

(** X12 on the empty pair: it passes the assertions, and the fit of no
    observation raises. *)
Lemma first_fit_failure_is_passed_on_witness :
  valid_pair sample_empty sample_empty /\
  OLS_fit (StatsModels := textbook) sample_empty
    (ExogFrame (add_constant (StatsModels := textbook) sample_empty)) (Some true)
  = Raise ValueError /\
  both_raise (sm := textbook) (PySeries sample_empty) (PySeries sample_empty) []
    ValueError
    ([] ++ [CallAddConstant sample_empty;
            CallOLS sample_empty
              (ExogFrame (add_constant (StatsModels := textbook) sample_empty))
              (Some true)]).
Proof.
  assert (Hv : valid_pair sample_empty sample_empty)
    by (split; [reflexivity | split; constructor]).
  split; [exact Hv |]. split; [reflexivity |].
  exact (first_fit_failure_is_passed_on (sm := textbook)
           sample_empty sample_empty [] ValueError Hv eq_refl).
Defined.

(** X13 on a constant [x]: no constant column is added, the first fit has
    one coefficient, and the unpacking fails. *)
Definition sample_fit_constant : OLSResults :=
  {| params := [1]; resid := [(0%Z, -2); (1%Z, 2); (2%Z, 0)] |}.

Lemma sample_constant_pair_valid : valid_pair sample_y sample_x_constant.
Proof. split; [reflexivity |]. split; repeat constructor. Qed.

Lemma wrong_coefficient_count_raises_witness :
  valid_pair sample_y sample_x_constant /\
  OLS_fit (StatsModels := textbook) sample_y
    (ExogFrame (add_constant (StatsModels := textbook) sample_x_constant)) (Some true)
  = Ok sample_fit_constant /\
  length (params sample_fit_constant) <> 2%nat /\
  both_raise (sm := textbook) (PySeries sample_y) (PySeries sample_x_constant) []
    ValueError
    ([] ++ [CallAddConstant sample_x_constant;
            CallOLS sample_y
              (ExogFrame (add_constant (StatsModels := textbook) sample_x_constant))
              (Some true)]).
Proof.
  assert (H1 : OLS_fit (StatsModels := textbook) sample_y
                 (ExogFrame (add_constant (StatsModels := textbook) sample_x_constant))
                 (Some true)
               = Ok sample_fit_constant) by (vm_compute; reflexivity).
  assert (Hlen : length (params sample_fit_constant) <> 2%nat) by discriminate.
  split; [exact sample_constant_pair_valid |]. split; [exact H1 |].
  split; [exact Hlen |].
  exact (wrong_coefficient_count_raises (sm := textbook)
           sample_y sample_x_constant [] sample_fit_constant
           sample_constant_pair_valid H1 Hlen).
Defined.

(** X14 on a single time point: the first fit succeeds, the differences and
    the lagged residuals are empty, and the second fit raises. *)
Definition sample_fit_single : OLSResults :=
  {| params := [nan; nan]; resid := [(0%Z, nan)] |}.

Lemma sample_single_pair_valid : valid_pair sample_y_single sample_x_single.
Proof. split; [reflexivity |]. split; repeat constructor. Qed.

Lemma second_fit_failure_is_passed_on_witness :
  valid_pair sample_y_single sample_x_single /\
  OLS_fit (StatsModels := textbook) sample_y_single
    (ExogFrame (add_constant (StatsModels := textbook) sample_x_single)) (Some true)
  = Ok sample_fit_single /\
  iloc_from_1 (diff sample_y_single) = [] /\
  iloc_from_1 (shift (resid sample_fit_single)) = [] /\
  both_raise (sm := textbook) (PySeries sample_y_single) (PySeries sample_x_single) []
    ValueError
    ([] ++ [CallAddConstant sample_x_single;
            CallOLS sample_y_single
              (ExogFrame (add_constant (StatsModels := textbook) sample_x_single))
              (Some true);
            CallOLS (iloc_from_1 (diff sample_y_single))
              (ExogSeries (iloc_from_1 (shift (resid sample_fit_single)))) None]).
Proof.
  assert (H1 : OLS_fit (StatsModels := textbook) sample_y_single
                 (ExogFrame (add_constant (StatsModels := textbook) sample_x_single))
                 (Some true)
               = Ok sample_fit_single) by (vm_compute; reflexivity).
  split; [exact sample_single_pair_valid |]. split; [exact H1 |].
  split; [reflexivity |]. split; [reflexivity |].
  exact (second_fit_failure_is_passed_on (sm := textbook)
           sample_y_single sample_x_single [] sample_fit_single nan nan ValueError
           sample_single_pair_valid H1 eq_refl eq_refl).
Defined.

Lemma short_run_inputs_are_aligned_witness :
  index (resid sample_fit1) = index sample_y /\
  index (iloc_from_1 (diff sample_y)) = tl (index sample_y) /\
  index (iloc_from_1 (shift (resid sample_fit1))) = tl (index sample_y) /\
  values (iloc_from_1 (shift (resid sample_fit1)))
  = removelast (values (resid sample_fit1)) /\
  (no_missing (resid sample_fit1) ->
   no_missing (iloc_from_1 (shift (resid sample_fit1)))).
Proof.
  split; [reflexivity |].
  apply (short_run_inputs_are_aligned sample_y (resid sample_fit1)). reflexivity.
Defined.

End ConcreteSeries.
